(** * love-ts: the watch / compile / emit / supervise loop of [src/watch.ts]

    A shallow embedding of [watch.ts] and the properties of its watch
    session: which compilation mode each pass uses, what the emitter writes,
    how diagnostics are reported, and how the LÖVE process is supervised.

    Layout:
    - [Path]: the two functions of Node's [path] module the file calls
      ([path.basename], [path.join]), POSIX flavour;
    - the data of the TypeScript / TypeScriptToLua interfaces the file consumes;
    - a small state-and-exit monad [M] for the effects ([ts.sys.writeFile],
      [spawn], [ts.sys.exit], ...), each of which leaves an [Event];
    - the functions of [watch.ts], in source order;
    - the vocabulary the statements use to read a run, and a small
      installation [Demo] to run the model on;
    - the properties.

    What the model leaves out: a write or a spawn that fails (it would end
    the host with an uncaught exception), and everything the collaborators
    do inside (the transpiler, TypeScript's builder and its sorting of
    diagnostics are parameters, see [Externals]). *)

From Stdlib Require Import Strings.String Strings.Ascii ZArith Lia.
From stdpp Require Import gmap strings list.

Local Open Scope string_scope.
Local Open Scope list_scope.

(* ===================================================================== *)
(** ** Node's [path] module (POSIX) *)
(* ===================================================================== *)

Module Path.

Definition slash : ascii := "/"%char.
Definition isSlash (c : ascii) : bool := Ascii.eqb c slash.

(** [path.basename(p)]: scanning from the end, trailing separators are
    skipped, then characters are taken up to the next separator. The two
    helpers work on the reversed character list. *)
Fixpoint dropSlashes (p : list ascii) : list ascii :=
  match p with
  | c :: r => if isSlash c then dropSlashes r else p
  | [] => []
  end.

Fixpoint takeToSlash (p : list ascii) : list ascii :=
  match p with
  | c :: r => if isSlash c then [] else c :: takeToSlash r
  | [] => []
  end.

Definition basenameChars (p : list ascii) : list ascii :=
  rev (takeToSlash (dropSlashes (rev p))).

Definition basename (p : string) : string :=
  string_of_list_ascii (basenameChars (list_ascii_of_string p)).

(** [path.normalize]: the path is cut at separators; empty segments and
    [.] vanish, [..] removes the segment before it (or stays, in a relative
    path that has nothing left to remove). *)
Fixpoint splitSlash (p : list ascii) : list (list ascii) :=
  match p with
  | [] => [[]]
  | c :: r =>
      if isSlash c then [] :: splitSlash r
      else match splitSlash r with
           | seg :: segs => (c :: seg) :: segs
           | [] => [[c]]
           end
  end.

Definition dot : list ascii := ["."%char].
Definition dotdot : list ascii := ["."%char; "."%char].

(** One step of Node's [normalizeString]; [res] holds the segments kept
    so far, the most recent first. *)
Definition pushSegment (allowAboveRoot : bool)
    (res : list (list ascii)) (seg : list ascii) : list (list ascii) :=
  if bool_decide (seg = []) || bool_decide (seg = dot) then res
  else if bool_decide (seg = dotdot) then
    match res with
    | top :: rest =>
        if bool_decide (top = dotdot)
        then (if allowAboveRoot then dotdot :: res else res)
        else rest
    | [] => if allowAboveRoot then [dotdot] else []
    end
  else seg :: res.

Fixpoint joinSlash (segs : list (list ascii)) : list ascii :=
  match segs with
  | [] => []
  | [s] => s
  | s :: rest => s ++ slash :: joinSlash rest
  end.

Definition normalizeChars (p : list ascii) : list ascii :=
  match p with
  | [] => dot
  | c :: _ =>
      let isAbsolute := isSlash c in
      let trailingSeparator :=
        match rev p with l :: _ => isSlash l | [] => false end in
      let body :=
        joinSlash (rev (fold_left (pushSegment (negb isAbsolute))
                                  (splitSlash p) [])) in
      match body with
      | [] => if isAbsolute then [slash]
              else if trailingSeparator then dot ++ [slash] else dot
      | _ :: _ =>
          (if isAbsolute then [slash] else []) ++ body
          ++ (if trailingSeparator then [slash] else [])
      end
  end.

Definition normalize (p : string) : string :=
  string_of_list_ascii (normalizeChars (list_ascii_of_string p)).

(** [path.join(a, b)]: the non-empty arguments are glued with a separator
    and the result is normalized. *)
Definition joinChars (a b : list ascii) : list ascii :=
  match a, b with
  | [], [] => dot
  | [], _ => normalizeChars b
  | _, [] => normalizeChars a
  | _, _ => normalizeChars (a ++ slash :: b)
  end.

Definition join (a b : string) : string :=
  string_of_list_ascii
    (joinChars (list_ascii_of_string a) (list_ascii_of_string b)).

(** A plain file name: not empty, no separator, neither [.] nor [..]. *)
Definition plainName (f : list ascii) : bool :=
  negb (bool_decide (f = [])) && forallb (fun c => negb (isSlash c)) f
  && negb (bool_decide (f = dot)) && negb (bool_decide (f = dotdot)).

(** [path.resolve(p)] in a process whose working directory is [cwd]. The
    arguments are taken from the last one on, each put before what is
    there already, until one of them is absolute; the working directory
    comes after the arguments. What this gives is normalized and carries
    no trailing separator. Links apart, it is the one name of the file a
    call like [ts.sys.writeFile(p, ...)] works on: two paths stand for the
    same file when they resolve alike. *)
Definition resolveStep (path : list ascii) (acc : list ascii * bool)
    : list ascii * bool :=
  let '(resolvedPath, resolvedAbsolute) := acc in
  if resolvedAbsolute then acc
  else match path with
       | [] => acc
       | c :: _ => (path ++ slash :: resolvedPath, isSlash c)
       end.

Definition resolveChars (cwd p : list ascii) : list ascii :=
  let '(resolvedPath, resolvedAbsolute) :=
    resolveStep cwd (resolveStep p ([], false)) in
  let body :=
    joinSlash (rev (fold_left (pushSegment (negb resolvedAbsolute))
                              (splitSlash resolvedPath) [])) in
  if resolvedAbsolute then slash :: body
  else match body with
       | [] => dot
       | _ :: _ => body
       end.

Definition resolve (cwd p : string) : string :=
  string_of_list_ascii
    (resolveChars (list_ascii_of_string cwd) (list_ascii_of_string p)).

End Path.

(* ===================================================================== *)
(** ** Data of the TypeScript and TypeScriptToLua interfaces *)
(* ===================================================================== *)

(** [ts.DiagnosticCategory] *)
Module DiagnosticCategory.
Inductive t := Warning | Error | Suggestion | Message.
Global Instance eq_dec : EqDecision t.
Proof. solve_decision. Defined.
End DiagnosticCategory.

Record Diagnostic := {
  category : DiagnosticCategory.t;
  code : N;
  file : option string;
  start : option nat;
  messageText : string
}.

Global Instance Diagnostic_eq_dec : EqDecision Diagnostic.
Proof. solve_decision. Defined.

Record SourceFile := { fileName : string }.

Global Instance SourceFile_eq_dec : EqDecision SourceFile.
Proof. solve_decision. Defined.

(** [ts.Program], as far as [watch.ts] queries it. *)
Record Program := {
  getSourceFiles : list SourceFile;
  getOptionsDiagnostics : list Diagnostic;
  getSyntacticDiagnostics : list Diagnostic;
  getGlobalDiagnostics : list Diagnostic;
  getSemanticDiagnostics : list Diagnostic
}.

(** The [affected] member of an [AffectedFileResult] is a source file (it
    has a [fileName]) or a whole program. *)
Inductive Affected :=
| AffectedFile (f : SourceFile)
| AffectedProgram (p : Program).

Record AffectedFileResult := {
  result : list Diagnostic;
  affected : Affected
}.

(** A loaded [tsconfig.json] is known by its identity: the [WeakMap] of
    [updateWatchCompilationHost] is keyed by the object, not by a path. *)
Definition TsConfigSourceFile := positive.

(** [tstl.CompilerOptions]: the members [watch.ts] reads or writes. An
    optional member that is absent is [None]. [outDir] is set by
    [transpileExecuteAndWatch] before anything else runs. *)
Record CompilerOptions := {
  outDir : string;
  project : option string;
  sourceMapTraceback : option bool;
  pretty : option bool;
  configFile : option TsConfigSourceFile;
  configFilePath : option string
}.

Record ParsedCommandLine := {
  options : CompilerOptions;
  errors : list Diagnostic
}.

(** [ts.SemanticDiagnosticsBuilderProgram]: its program, its options, and
    the affected units it has not handed out yet. *)
Record BuilderProgram := {
  getProgram : Program;
  getCompilerOptions : CompilerOptions;
  affectedPending : list AffectedFileResult
}.

Record TranspiledFile := {
  transpiledFileName : string;
  lua : option string
}.

(** [tstl.OutputFile] *)
Record OutputFile := {
  name : string;
  text : string
}.

(** A reporter made by [tstl.createDiagnosticReporter(pretty)] is known by
    its flag. *)
Record DiagnosticReporter := createDiagnosticReporter {
  reporterIsPretty : bool
}.

(** [ts.WatchCompilerHost]: the status reporter it was created with. *)
Record WatchCompilerHost := {
  onWatchStatusChange : DiagnosticReporter
}.

(** The collaborators [watch.ts] calls but does not define: the
    TypeScriptToLua transpiler, TypeScript's diagnostic utilities, the
    terminal, the two helpers imported from [./start], and the bundled Lua
    libraries next to the tool. *)
Class Externals := {
  transpile : Program → option (list SourceFile)
              → list Diagnostic * list TranspiledFile;
  emitTranspiledFiles : CompilerOptions → list TranspiledFile → list OutputFile;
  sortAndDeduplicateDiagnostics : list Diagnostic → list Diagnostic;
  (** [tstl.updateParsedConfigFile (ts.parseJsonSourceFileConfigFileContent
      (configFile, ts.sys, path.dirname configFilePath, optionsToExtend,
      configFilePath))] *)
  parseConfigFile : TsConfigSourceFile → string → CompilerOptions
                    → ParsedCommandLine;
  (** [ts.sys.writeOutputIsTTY]: [None] when the host system lacks it. *)
  writeOutputIsTTY : option bool;
  setupTemporaryDirectory : string;
  findAndParseConfigFile : string → string * ParsedCommandLine;
  (** the values of [path.resolve (path.join (__dirname, "../lib/..."))] *)
  lumePath : string;
  lurkerPath : string;
  (** content of a file of the installation *)
  bundled : string → string
}.

(* ===================================================================== *)
(** ** Effects *)
(* ===================================================================== *)

Inductive Stream := Stdin | Stdout | Stderr.

(** What the program does to the outside, in the order it does it. *)
Inductive Event :=
| WriteFile (path data : string)
| ReadFile (path : string)
| Transpile (sourceFiles : option (list SourceFile))
| ReportDiagnostic (reporter : DiagnosticReporter) (d : Diagnostic)
| WatchErrorSummary (reporter : DiagnosticReporter) (errorCount : nat)
| Spawn (command : string) (args : list string) (stdio : list Stream)
| Exit (exitCode : Z)
| Rimraf (dir : string).

(** The mutable variables of the module ([lumeContent], [lurkerContent],
    [reportDiagnostic]), those captured by the closure that
    [updateWatchCompilationHost] installs ([fullRecompile], [configFileMap],
    [loveIsRunning]), the directory captured by the child's [close]
    listener, and the files on disk. *)
Record State := {
  files : gmap string string;
  lumeContent : option string;
  lurkerContent : option string;
  reportDiagnostic : DiagnosticReporter;
  fullRecompile : bool;
  configFileMap : gmap TsConfigSourceFile ParsedCommandLine;
  loveIsRunning : bool;
  closeListener : option string
}.

Definition set_files (f : gmap string string → gmap string string) (s : State) : State :=
  {| files := f (files s); lumeContent := lumeContent s;
     lurkerContent := lurkerContent s; reportDiagnostic := reportDiagnostic s;
     fullRecompile := fullRecompile s; configFileMap := configFileMap s;
     loveIsRunning := loveIsRunning s; closeListener := closeListener s |}.

Definition set_lumeContent (v : option string) (s : State) : State :=
  {| files := files s; lumeContent := v;
     lurkerContent := lurkerContent s; reportDiagnostic := reportDiagnostic s;
     fullRecompile := fullRecompile s; configFileMap := configFileMap s;
     loveIsRunning := loveIsRunning s; closeListener := closeListener s |}.

Definition set_lurkerContent (v : option string) (s : State) : State :=
  {| files := files s; lumeContent := lumeContent s;
     lurkerContent := v; reportDiagnostic := reportDiagnostic s;
     fullRecompile := fullRecompile s; configFileMap := configFileMap s;
     loveIsRunning := loveIsRunning s; closeListener := closeListener s |}.

Definition set_reportDiagnostic (v : DiagnosticReporter) (s : State) : State :=
  {| files := files s; lumeContent := lumeContent s;
     lurkerContent := lurkerContent s; reportDiagnostic := v;
     fullRecompile := fullRecompile s; configFileMap := configFileMap s;
     loveIsRunning := loveIsRunning s; closeListener := closeListener s |}.

Definition set_fullRecompile (v : bool) (s : State) : State :=
  {| files := files s; lumeContent := lumeContent s;
     lurkerContent := lurkerContent s; reportDiagnostic := reportDiagnostic s;
     fullRecompile := v; configFileMap := configFileMap s;
     loveIsRunning := loveIsRunning s; closeListener := closeListener s |}.

Definition set_configFileMap
    (v : gmap TsConfigSourceFile ParsedCommandLine) (s : State) : State :=
  {| files := files s; lumeContent := lumeContent s;
     lurkerContent := lurkerContent s; reportDiagnostic := reportDiagnostic s;
     fullRecompile := fullRecompile s; configFileMap := v;
     loveIsRunning := loveIsRunning s; closeListener := closeListener s |}.

Definition set_loveIsRunning (v : bool) (s : State) : State :=
  {| files := files s; lumeContent := lumeContent s;
     lurkerContent := lurkerContent s; reportDiagnostic := reportDiagnostic s;
     fullRecompile := fullRecompile s; configFileMap := configFileMap s;
     loveIsRunning := v; closeListener := closeListener s |}.

Definition set_closeListener (v : option string) (s : State) : State :=
  {| files := files s; lumeContent := lumeContent s;
     lurkerContent := lurkerContent s; reportDiagnostic := reportDiagnostic s;
     fullRecompile := fullRecompile s; configFileMap := configFileMap s;
     loveIsRunning := loveIsRunning s; closeListener := v |}.

(** A computation runs to its end, or the host process exits inside it;
    either way it leaves a state and the events it caused. *)
Inductive Outcome (A : Type) :=
| Done (a : A) (s : State) (evs : list Event)
| Exited (exitCode : Z) (s : State) (evs : list Event).
Arguments Done {A} a s evs.
Arguments Exited {A} exitCode s evs.

Definition M (A : Type) : Type := State → Outcome A.

Definition stateOf {A} (o : Outcome A) : State :=
  match o with Done _ s _ => s | Exited _ s _ => s end.

Definition eventsOf {A} (o : Outcome A) : list Event :=
  match o with Done _ _ evs => evs | Exited _ _ evs => evs end.

Definition valueOf {A} (o : Outcome A) : option A :=
  match o with Done a _ _ => Some a | Exited _ _ _ => None end.

Global Instance M_ret : MRet M := λ A a s, Done a s [].

Global Instance M_bind : MBind M := λ A B f m s,
  match m s with
  | Done a s1 e1 =>
      match f a s1 with
      | Done b s2 e2 => Done b s2 (e1 ++ e2)
      | Exited c s2 e2 => Exited c s2 (e1 ++ e2)
      end
  | Exited c s1 e1 => Exited c s1 e1
  end.

Definition gets {A} (f : State → A) : M A := λ s, Done (f s) s [].
Definition modify (f : State → State) : M unit := λ s, Done tt (f s) [].
Definition emit (e : Event) : M unit := λ s, Done tt s [e].

(** [Array.prototype.forEach] with an effectful callback. *)
Fixpoint forEach {A} (l : list A) (f : A → M unit) : M unit :=
  match l with
  | [] => mret tt
  | x :: r => f x ;; forEach r f
  end.

(** [files] under [dir]: [dir] itself and every path below it. *)
Definition inside (dir p : string) : bool :=
  String.eqb p dir || String.prefix (dir +:+ "/") p.

Section Sys.
Context `{Externals}.

(** [ts.sys.writeFile] creates or overwrites the file. *)
Definition writeFile (path data : string) : M unit :=
  modify (set_files <[path := data]>) ;; emit (WriteFile path data).

(** [ts.sys.readFile]: the program reads only files of its installation. *)
Definition readFile (path : string) : M string :=
  emit (ReadFile path) ;; mret (bundled path).

(** [child_process.spawn] *)
Definition spawn (command : string) (args : list string)
    (stdio : list Stream) : M unit :=
  emit (Spawn command args stdio).

(** [ts.sys.exit] ends the host process: nothing after it runs. *)
Definition exit (exitCode : Z) : M unit :=
  λ s, Exited exitCode s [Exit exitCode].

(** [rimraf(dir, {}, cb)] removes [dir] and all below it. *)
Definition rimraf (dir : string) : M unit :=
  modify (set_files (filter (λ kv, inside dir kv.1 = false))) ;;
  emit (Rimraf dir).
End Sys.

(* ===================================================================== *)
(** ** [watch.ts] *)
(* ===================================================================== *)

Definition nl : string := String "010"%char EmptyString.
Definition dq : string := String "034"%char EmptyString.

Definition luaConfHead : string :=
  nl +:+ "package.path = package.path .. " +:+ dq +:+ ";node_modules/?/init.lua" +:+ dq +:+ nl
  +:+ "package.path = package.path .. " +:+ dq +:+ ";node_modules/?/?.lua" +:+ dq +:+ nl.

Definition luaMainTail : string :=
  nl +:+ "local oldUpdate = love.update" +:+ nl
  +:+ "function love.update(delta)" +:+ nl
  +:+ "    if oldUpdate then" +:+ nl
  +:+ "        oldUpdate(delta)" +:+ nl
  +:+ "    end" +:+ nl
  +:+ "    require(" +:+ dq +:+ "lurker" +:+ dq +:+ ").update()" +:+ nl
  +:+ "end" +:+ nl.

(** JavaScript's [!v] on a value that is a string or [undefined]. *)
Definition falsy (v : option string) : bool :=
  match v with
  | None => true
  | Some s => String.eqb s EmptyString
  end.

(** [forEach] whose callback also assigns a local variable of the
    enclosing function; the variable is threaded through. *)
Fixpoint forEachWith {A L} (l : list A) (f : L → A → M L) (local : L) : M L :=
  match l with
  | [] => mret local
  | x :: r => local' ← f local x; forEachWith r f local'
  end.

(** [Object.assign (target, source)] on compiler options: every member
    present in [source] replaces the one in [target]. *)
Definition Object_assign (target source : CompilerOptions) : CompilerOptions :=
  {| outDir := outDir source;
     project := from_option Some (project target) (project source);
     sourceMapTraceback :=
       from_option Some (sourceMapTraceback target) (sourceMapTraceback source);
     pretty := from_option Some (pretty target) (pretty source);
     configFile := from_option Some (configFile target) (configFile source);
     configFilePath :=
       from_option Some (configFilePath target) (configFilePath source) |}.

Definition isError (d : Diagnostic) : bool :=
  bool_decide (category d = DiagnosticCategory.Error).

(** [builderProgram.getSemanticDiagnosticsOfNextAffectedFile ()] hands out
    the next pending unit and forgets it; with nothing pending the answer
    is [undefined]. *)
Definition getSemanticDiagnosticsOfNextAffectedFile (b : BuilderProgram)
    : option AffectedFileResult * BuilderProgram :=
  match affectedPending b with
  | [] => (None, b)
  | currentFile :: rest =>
      (Some currentFile,
       {| getProgram := getProgram b;
          getCompilerOptions := getCompilerOptions b;
          affectedPending := rest |})
  end.

(** The [while (true)] loop of [afterProgramCreate], by recursion on the
    pending units: each turn takes the unit handed out next and pushes its
    files; the loop ends when nothing is pending
    ([nextAffectedFiles_loop] states it turn by turn). *)
Fixpoint nextAffectedFiles (pending : list AffectedFileResult)
    (sourceFiles : list SourceFile) : list SourceFile :=
  match pending with
  | [] => sourceFiles
  | currentFile :: rest =>
      nextAffectedFiles rest
        match affected currentFile with
        | AffectedFile f => sourceFiles ++ [f]
        | AffectedProgram p => sourceFiles ++ getSourceFiles p
        end
  end.

Section Watch.
Context `{Externals}.

Definition emitFiles (outputFiles : list OutputFile)
    (passOptions : CompilerOptions) : M unit :=
  wroteConf ← forEachWith outputFiles (λ wroteConf f,
      if String.eqb (Path.basename (name f)) "conf.lua" then
        writeFile (name f) (luaConfHead +:+ nl +:+ text f) ;;
        mret true
      else if String.eqb (Path.basename (name f)) "main.lua" then
        writeFile (name f) (text f +:+ nl +:+ luaMainTail) ;;
        mret wroteConf
      else
        writeFile (name f) (text f) ;;
        mret wroteConf) false;
  (if negb wroteConf
   then writeFile (Path.join (outDir passOptions) "conf.lua") luaConfHead
   else mret tt) ;;
  lume ← gets lumeContent;
  lurker ← gets lurkerContent;
  if falsy lume && falsy lurker then
    lume ← readFile lumePath;
    modify (set_lumeContent (Some lume)) ;;
    lurker ← readFile lurkerPath;
    modify (set_lurkerContent (Some lurker)) ;;
    writeFile (Path.join (outDir passOptions) "lume.lua") lume ;;
    writeFile (Path.join (outDir passOptions) "lurker.lua") lurker
  else mret tt.

Definition shouldBePretty (compilerOptions : option CompilerOptions) : bool :=
  match compilerOptions with
  | None => from_option id false writeOutputIsTTY
  | Some o =>
      match pretty o with
      | None => from_option id false writeOutputIsTTY
      | Some b => b
      end
  end.

Definition createWatchStatusReporter (compilerOptions : option CompilerOptions)
    : DiagnosticReporter :=
  createDiagnosticReporter (shouldBePretty compilerOptions).

Definition updateReportDiagnostic (compilerOptions : option CompilerOptions)
    : M unit :=
  modify (set_reportDiagnostic
            (createDiagnosticReporter (shouldBePretty compilerOptions))).

(** Lines 113-134 of [afterProgramCreate]: the options of this pass and
    [configFileParsingDiagnostics]. *)
Definition configFileParsingDiagnostics
    (optionsToExtend builderOptions : CompilerOptions)
    : M (CompilerOptions * list Diagnostic) :=
  match configFile builderOptions, configFilePath builderOptions with
  | Some cf, Some cfPath =>
      if String.eqb cfPath EmptyString then mret (builderOptions, [])
      else
        known ← gets configFileMap;
        (if bool_decide (is_Some (known !! cf)) then mret tt
         else modify (set_configFileMap
                        (<[cf := parseConfigFile cf cfPath optionsToExtend]> known))) ;;
        known ← gets configFileMap;
        match known !! cf with
        | Some parsedConfigFile =>
            mret (Object_assign builderOptions (options parsedConfigFile),
                  errors parsedConfigFile)
        | None => mret (builderOptions, [])
        end
  | _, _ => mret (builderOptions, [])
  end.

(** The body of the [child.on("close", ...)] listener; it ignores the
    exit code it is called with. *)
Definition onClose (outDir : string) (childExitCode : Z) : M unit :=
  exit 0 ;;
  rimraf outDir.

Definition afterProgramCreate (host : WatchCompilerHost)
    (optionsToExtend : CompilerOptions) (builderProgram : BuilderProgram)
    : M unit :=
  let program := getProgram builderProgram in
  '(passOptions, configDiagnostics) ←
    configFileParsingDiagnostics optionsToExtend
      (getCompilerOptions builderProgram);
  full ← gets fullRecompile;
  let sourceFiles :=
    if negb full
    then Some (nextAffectedFiles (affectedPending builderProgram) [])
    else None in
  emit (Transpile sourceFiles) ;;
  let '(emitDiagnostics, transpiledFiles) := transpile program sourceFiles in
  let emitResult := emitTranspiledFiles passOptions transpiledFiles in
  emitFiles emitResult passOptions ;;
  let diagnostics :=
    sortAndDeduplicateDiagnostics
      (configDiagnostics
       ++ getOptionsDiagnostics program
       ++ getSyntacticDiagnostics program
       ++ getGlobalDiagnostics program
       ++ getSemanticDiagnostics program
       ++ emitDiagnostics) in
  reporter ← gets reportDiagnostic;
  forEach diagnostics (λ d, emit (ReportDiagnostic reporter d)) ;;
  let errors := List.filter isError diagnostics in
  modify (set_fullRecompile (Nat.ltb 0 (List.length errors))) ;;
  emit (WatchErrorSummary (onWatchStatusChange host) (List.length errors)) ;;
  running ← gets loveIsRunning;
  if negb running then
    spawn "lovec" [outDir optionsToExtend] [Stdin; Stdout; Stderr] ;;
    modify (set_closeListener (Some (outDir optionsToExtend))) ;;
    modify (set_loveIsRunning true)
  else mret tt.

(** [updateWatchCompilationHost] creates the variables the closure
    captures and installs the closure. *)
Definition updateWatchCompilationHost (host : WatchCompilerHost)
    (optionsToExtend : CompilerOptions) : M (BuilderProgram → M unit) :=
  modify (set_fullRecompile true) ;;
  modify (set_configFileMap ∅) ;;
  modify (set_loveIsRunning false) ;;
  mret (afterProgramCreate host optionsToExtend).

(** [ts.createWatchProgram] builds the program once at start and once
    more after every change, and hands each build to the installed
    [afterProgramCreate]; [builds] are the builds of the session. *)
Definition createWatchProgram (callback : BuilderProgram → M unit)
    (builds : list BuilderProgram) : M unit :=
  forEach builds callback.

Definition createWatchOfConfigFile (configFileName : string)
    (optionsToExtend : CompilerOptions) (builds : list BuilderProgram) : M unit :=
  let watchCompilerHost :=
    {| onWatchStatusChange := createWatchStatusReporter (Some optionsToExtend) |} in
  callback ← updateWatchCompilationHost watchCompilerHost optionsToExtend;
  createWatchProgram callback builds.

Definition transpileExecuteAndWatch (configPath : string)
    (builds : list BuilderProgram) : M unit :=
  let outDir := setupTemporaryDirectory in
  let '(configFileName, parsedConfigFile) := findAndParseConfigFile configPath in
  let optionsToExtend :=
    {| outDir := outDir;
       project := Some configPath;
       sourceMapTraceback := Some true;
       pretty := pretty (options parsedConfigFile);
       configFile := configFile (options parsedConfigFile);
       configFilePath := configFilePath (options parsedConfigFile) |} in
  createWatchOfConfigFile configFileName optionsToExtend builds.

(** Node delivers the child's [close] event to the listener that was
    registered when the child was spawned. *)
Definition childClosed (childExitCode : Z) : M unit :=
  listener ← gets closeListener;
  match listener with
  | Some outDir => onClose outDir childExitCode
  | None => mret tt
  end.

(** A process that has just loaded the module. *)
Definition startOfProcess (disk : gmap string string) : State :=
  {| files := disk;
     lumeContent := None;
     lurkerContent := None;
     reportDiagnostic := createDiagnosticReporter false;
     fullRecompile := false;
     configFileMap := ∅;
     loveIsRunning := false;
     closeListener := None |}.

End Watch.

(* ===================================================================== *)
(** ** Reading a run *)
(* ===================================================================== *)

(** The disk after a sequence of events: only writes and removals touch it. *)
Definition replay (evs : list Event) (disk : gmap string string)
    : gmap string string :=
  fold_left (λ d e,
      match e with
      | WriteFile p data => <[p := data]> d
      | Rimraf dir => filter (λ kv, inside dir kv.1 = false) d
      | _ => d
      end) evs disk.

(** The data of the last write to [q] among some events, if any. *)
Fixpoint lastWrite (q : string) (evs : list Event) : option string :=
  match evs with
  | [] => None
  | e :: rest =>
      match lastWrite q rest with
      | Some d => Some d
      | None =>
          match e with
          | WriteFile p d => if String.eqb p q then Some d else None
          | _ => None
          end
      end
  end.

(** How often [pattern] occurs in [s], overlapping occurrences included. *)
Fixpoint occurrences (pattern s : string) : nat :=
  match s with
  | EmptyString => if String.prefix pattern s then 1 else 0
  | String _ rest =>
      (if String.prefix pattern s then 1 else 0) + occurrences pattern rest
  end.

(** Does [s] hold two newlines in a row? *)
Fixpoint hasBlankLine (s : string) : bool :=
  match s with
  | String a (String b _ as rest) =>
      (Ascii.eqb a "010" && Ascii.eqb b "010") || hasBlankLine rest
  | _ => false
  end.

Definition isConf (f : OutputFile) : bool :=
  String.eqb (Path.basename (name f)) "conf.lua".

Definition isMain (f : OutputFile) : bool :=
  String.eqb (Path.basename (name f)) "main.lua".

(** What the [switch] of [emitFiles] writes for one output file. *)
Definition emittedText (f : OutputFile) : string :=
  if isConf f then luaConfHead +:+ nl +:+ text f
  else if isMain f then text f +:+ nl +:+ luaMainTail
  else text f.

Definition emitted (f : OutputFile) : Event :=
  WriteFile (name f) (emittedText f).

(** The write after the loop, made when no output file was a [conf.lua]. *)
Definition confFallback (outputFiles : list OutputFile) (dir : string) : list Event :=
  if existsb isConf outputFiles then []
  else [WriteFile (Path.join dir "conf.lua") luaConfHead].

(** The guard of the library copy: neither content is loaded yet. *)
Definition firstEmission (s : State) : bool :=
  falsy (lumeContent s) && falsy (lurkerContent s).

Definition isSpawn (e : Event) : bool :=
  match e with Spawn _ _ _ => true | _ => false end.

Definition isReadFile (e : Event) : bool :=
  match e with ReadFile _ => true | _ => false end.

Definition isWriteFile (e : Event) : bool :=
  match e with WriteFile _ _ => true | _ => false end.

Definition isFileEvent (e : Event) : bool :=
  isReadFile e || isWriteFile e.

(** The calls of the transpiler among some events, by their [sourceFiles]
    argument. *)
Definition transpileCalls (evs : list Event) : list (option (list SourceFile)) :=
  omap (λ e, match e with Transpile sf => Some sf | _ => None end) evs.

(** A pass ran in full mode when its one call of the transpiler left
    [sourceFiles] undefined, and in incremental mode when it passed a list. *)
Definition ranFull (evs : list Event) : bool :=
  match transpileCalls evs with [None] => true | _ => false end.

Definition ranIncremental (evs : list Event) : bool :=
  match transpileCalls evs with [Some _] => true | _ => false end.

(** The diagnostics rendered among some events, and the summaries. *)
Definition reported (evs : list Event) : list Diagnostic :=
  omap (λ e, match e with ReportDiagnostic _ d => Some d | _ => None end) evs.

Definition reporters (evs : list Event) : list DiagnosticReporter :=
  omap (λ e, match e with ReportDiagnostic r _ => Some r | _ => None end) evs.

Definition summaries (evs : list Event) : list nat :=
  omap (λ e, match e with WatchErrorSummary _ n => Some n | _ => None end) evs.

Definition reportedError (evs : list Event) : bool :=
  existsb isError (reported evs).

(** The source files one affected unit stands for. *)
Definition unitFiles (r : AffectedFileResult) : list SourceFile :=
  match affected r with
  | AffectedFile f => [f]
  | AffectedProgram p => getSourceFiles p
  end.

Section Runs.
Context `{Externals}.

(** The passes of a session, one outcome per build, from the state the
    first pass starts in; a pass in which the process exits is the last. *)
Fixpoint passRuns (callback : BuilderProgram → M unit)
    (builds : list BuilderProgram) (s : State) : list (Outcome unit) :=
  match builds with
  | [] => []
  | b :: rest =>
      match callback b s with
      | Done a s' evs => Done a s' evs :: passRuns callback rest s'
      | Exited c s' evs => [Exited c s' evs]
      end
  end.

(** The copy of the two bundled libraries into [dir]. *)
Definition runtimeSupportCopy (dir : string) : list Event :=
  [ ReadFile lumePath; ReadFile lurkerPath;
    WriteFile (Path.join dir "lume.lua") (bundled lumePath);
    WriteFile (Path.join dir "lurker.lua") (bundled lurkerPath) ].

(** The events of one call of the emitter: the output files, then the
    fallback [conf.lua], then (on the first emission of the process) the
    copy of the bundled libraries. *)
Definition emitFilesEvents (outputFiles : list OutputFile)
    (passOptions : CompilerOptions) (s : State) : list Event :=
  (emitted <$> outputFiles)
  ++ confFallback outputFiles (outDir passOptions)
  ++ (if firstEmission s then runtimeSupportCopy (outDir passOptions) else []).

(** The options a pass emits with (the first component of what lines
    113-134 compute). *)
Definition optionsOfPass (optionsToExtend : CompilerOptions)
    (b : BuilderProgram) (s : State) : CompilerOptions :=
  match configFileParsingDiagnostics optionsToExtend (getCompilerOptions b) s with
  | Done (o, _) _ _ => o
  | Exited _ _ _ => getCompilerOptions b
  end.

Definition configDiagnosticsOfPass (optionsToExtend : CompilerOptions)
    (b : BuilderProgram) (s : State) : list Diagnostic :=
  match configFileParsingDiagnostics optionsToExtend (getCompilerOptions b) s with
  | Done (_, ds) _ _ => ds
  | Exited _ _ _ => []
  end.

(** The [sourceFiles] a pass hands to the transpiler, by the mode the
    pass starts in. *)
Definition sourceFilesOfPass (b : BuilderProgram) (s : State)
    : option (list SourceFile) :=
  if fullRecompile s then None
  else Some (nextAffectedFiles (affectedPending b) []).

(** The output files of a pass. *)
Definition emitResultOfPass (optionsToExtend : CompilerOptions)
    (b : BuilderProgram) (s : State) : list OutputFile :=
  emitTranspiledFiles (optionsOfPass optionsToExtend b s)
    (transpile (getProgram b) (sourceFilesOfPass b s)).2.

(** The six diagnostic lists of a pass, in the order they are spread
    into the argument of [ts.sortAndDeduplicateDiagnostics]. *)
Definition mergedDiagnostics (optionsToExtend : CompilerOptions)
    (b : BuilderProgram) (s : State) : list Diagnostic :=
  configDiagnosticsOfPass optionsToExtend b s
  ++ getOptionsDiagnostics (getProgram b)
  ++ getSyntacticDiagnostics (getProgram b)
  ++ getGlobalDiagnostics (getProgram b)
  ++ getSemanticDiagnostics (getProgram b)
  ++ (transpile (getProgram b) (sourceFilesOfPass b s)).1.

Definition lovec (optionsToExtend : CompilerOptions) : Event :=
  Spawn "lovec" [outDir optionsToExtend] [Stdin; Stdout; Stderr].

(** The events of one pass, in order: the call of the transpiler, the
    emission, the diagnostics, the summary, and the start of LÖVE when it
    is not running yet. *)
Definition passEvents (host : WatchCompilerHost)
    (optionsToExtend : CompilerOptions) (b : BuilderProgram) (s : State)
    : list Event :=
  let diagnostics :=
    sortAndDeduplicateDiagnostics (mergedDiagnostics optionsToExtend b s) in
  [Transpile (sourceFilesOfPass b s)]
  ++ emitFilesEvents (emitResultOfPass optionsToExtend b s)
       (optionsOfPass optionsToExtend b s) s
  ++ (ReportDiagnostic (reportDiagnostic s) <$> diagnostics)
  ++ [WatchErrorSummary (onWatchStatusChange host)
        (List.length (List.filter isError diagnostics))]
  ++ (if loveIsRunning s then [] else [lovec optionsToExtend]).

(** The host a session creates, as [createWatchOfConfigFile] does. *)
Definition hostOf (optionsToExtend : CompilerOptions) : WatchCompilerHost :=
  {| onWatchStatusChange := createWatchStatusReporter (Some optionsToExtend) |}.

(** The state in which the first pass of a session starts. *)
Definition sessionStart (optionsToExtend : CompilerOptions) (s : State) : State :=
  stateOf (updateWatchCompilationHost (hostOf optionsToExtend) optionsToExtend s).

(** The passes of the session [createWatchOfConfigFile] runs. *)
Definition sessionRuns (optionsToExtend : CompilerOptions)
    (builds : list BuilderProgram) (s : State) : list (Outcome unit) :=
  match updateWatchCompilationHost (hostOf optionsToExtend) optionsToExtend s with
  | Done callback s0 _ => passRuns callback builds s0
  | Exited _ _ _ => []
  end.
End Runs.

(* ===================================================================== *)
(** ** A small installation to run the model on *)
(* ===================================================================== *)

Module Demo.

(** [a/b.ts] becomes [a/b.lua]. *)
Definition luaName (tsName : string) : string :=
  match rev (list_ascii_of_string tsName) with
  | "s"%char :: "t"%char :: "."%char :: stem =>
      string_of_list_ascii (rev stem) +:+ ".lua"
  | _ => tsName +:+ ".lua"
  end.

Definition compareDiagnostics (a b : Diagnostic) : comparison :=
  match String.compare (default EmptyString (file a))
                       (default EmptyString (file b)) with
  | Eq =>
      match Nat.compare (default 0 (start a)) (default 0 (start b)) with
      | Eq =>
          match N.compare (code a) (code b) with
          | Eq => String.compare (messageText a) (messageText b)
          | c => c
          end
      | c => c
      end
  | c => c
  end.

Fixpoint insertDiagnostic (d : Diagnostic) (l : list Diagnostic) : list Diagnostic :=
  match l with
  | [] => [d]
  | x :: r =>
      match compareDiagnostics d x with
      | Lt => d :: l
      | Eq => l
      | Gt => x :: insertDiagnostic d r
      end
  end.

Definition emptyOptions (dir : string) : CompilerOptions :=
  {| outDir := dir; project := None; sourceMapTraceback := None;
     pretty := None; configFile := None; configFilePath := None |}.

Global Instance externals : Externals := {|
  transpile program sourceFiles :=
    ([], (λ f, {| transpiledFileName := fileName f;
                  lua := Some ("-- from " +:+ fileName f) |})
           <$> default (getSourceFiles program) sourceFiles);
  emitTranspiledFiles o transpiled :=
    omap (λ t, (λ l, {| name := Path.join (outDir o) (luaName (transpiledFileName t));
                        text := l |}) <$> lua t) transpiled;
  sortAndDeduplicateDiagnostics ds := foldr insertDiagnostic [] ds;
  parseConfigFile cf cfPath optionsToExtend :=
    {| options := optionsToExtend; errors := [] |};
  writeOutputIsTTY := Some true;
  setupTemporaryDirectory := "/tmp/love-ts";
  findAndParseConfigFile configPath :=
    (configPath +:+ "/tsconfig.json",
     {| options := emptyOptions "build"; errors := [] |});
  lumePath := "/opt/love-ts/lib/lume.lua";
  lurkerPath := "/opt/love-ts/lib/lurker.lua";
  bundled p := "-- bundled " +:+ Path.basename p
|}.

(** The same installation with two empty library files. *)
Definition emptyLibraries : Externals := {|
  transpile := transpile;
  emitTranspiledFiles := emitTranspiledFiles;
  sortAndDeduplicateDiagnostics := sortAndDeduplicateDiagnostics;
  parseConfigFile := parseConfigFile;
  writeOutputIsTTY := writeOutputIsTTY;
  setupTemporaryDirectory := setupTemporaryDirectory;
  findAndParseConfigFile := findAndParseConfigFile;
  lumePath := lumePath;
  lurkerPath := lurkerPath;
  bundled p := EmptyString
|}.

Definition options : CompilerOptions := emptyOptions "/tmp/love-ts".

Definition host : WatchCompilerHost :=
  {| onWatchStatusChange := createWatchStatusReporter (Some options) |}.

Definition syntaxError : Diagnostic :=
  {| category := DiagnosticCategory.Error; code := 1005%N;
     file := Some "util.ts"; start := Some 12;
     messageText := "';' expected." |}.

Definition unusedWarning : Diagnostic :=
  {| category := DiagnosticCategory.Warning; code := 6133%N;
     file := Some "util.ts"; start := Some 3;
     messageText := "'x' is declared but never used." |}.

Definition program (syntactic : list Diagnostic) : Program :=
  {| getSourceFiles := [ {| fileName := "main.ts" |}; {| fileName := "util.ts" |} ];
     getOptionsDiagnostics := [];
     getSyntacticDiagnostics := syntactic;
     getGlobalDiagnostics := [];
     getSemanticDiagnostics := [] |}.

(** A build with the given syntactic diagnostics in which [util.ts] is
    the one affected file. *)
Definition build (syntactic : list Diagnostic) : BuilderProgram :=
  {| getProgram := program syntactic;
     getCompilerOptions := options;
     affectedPending :=
       [ {| result := syntactic;
            affected := AffectedFile {| fileName := "util.ts" |} |} ] |}.

(** Start, an edit that breaks [util.ts], the fix, and one more edit. *)
Definition session : list BuilderProgram :=
  [ build []; build [syntaxError; unusedWarning]; build [unusedWarning]; build [] ].

End Demo.

(* ===================================================================== *)
(** ** [index.ts]: the command line *)
(* ===================================================================== *)

(** What the command line does to the outside: the processes it starts,
    what it prints, and the calls into the other modules of the tool. *)
Inductive CliEffect :=
| CliSpawn (command : string) (args : list string) (stdio : list Stream)
| CliExec (command : string)
| ConsoleLog (line : string)
| ConsoleError (line : string)
| InitializeProjectInCurrentDirectory
| CreateLoveFile (path : string)
| TranspileAndExecute (fullPath : string)
| TranspileExecuteAndWatch (fullPath : string).

(** What [index.ts] imports or asks the file system: [getFullConfigFilePath]
    of [./build] and [fs.existsSync]. *)
Class CliExternals := {
  getFullConfigFilePath : string → string;
  existsSync : string → bool
}.

Definition help : string :=
  nl
  +:+ "Syntax:     love-ts [command]" +:+ nl
  +:+ nl
  +:+ "Commands:" +:+ nl
  +:+ "add                             Add one or more dependencies (alias for " +:+ dq +:+ "yarn add" +:+ dq +:+ ")." +:+ nl
  +:+ "build                           Builds the project in the specified directory (alias for " +:+ dq +:+ "yarn build" +:+ dq +:+ ")." +:+ nl
  +:+ "init                            Initializes a new project within the current directory." +:+ nl
  +:+ "install                         Installs all of a project's dependencies (alias for " +:+ dq +:+ "yarn install" +:+ dq +:+ ")." +:+ nl
  +:+ "release                         Create a .love file with all compiled lua files, resource files and dependencies." +:+ nl
  +:+ "start (default)                 Starts the project within the current directory." +:+ nl
  +:+ "remove                          Remove one or more dependencies (alias for " +:+ dq +:+ "yarn remove" +:+ dq +:+ ")." +:+ nl
  +:+ "test                            Runs the tests for this project specified in package.json (alias for " +:+ dq +:+ "yarn test" +:+ dq +:+ ")." +:+ nl
  +:+ "watch                           Starts the project and updates source files while the game is running." +:+ nl.

(** The labels of the [switch (command)], in source order. *)
Inductive CaseLabel :=
| CaseAdd | CaseBuild | CaseInit | CaseInstall | CaseRelease | CaseStart
| CaseRemove | CaseTest | CaseWatch | CaseUndefined | CaseDefault
| CaseDashH | CaseDashDashHelp | CaseHelp.

Definition caseLabels : list CaseLabel :=
  [ CaseAdd; CaseBuild; CaseInit; CaseInstall; CaseRelease; CaseStart;
    CaseRemove; CaseTest; CaseWatch; CaseUndefined; CaseDefault;
    CaseDashH; CaseDashDashHelp; CaseHelp ].

Global Instance CaseLabel_eq_dec : EqDecision CaseLabel.
Proof. solve_decision. Defined.

(** The clause a command enters the [switch] at: the [case] that is
    strictly equal to it, and [default] when there is none. A missing
    [process.argv[2]] is [undefined]. *)
Definition enteredAt (command : option string) : CaseLabel :=
  match command with
  | None => CaseUndefined
  | Some c =>
      if String.eqb c "add" then CaseAdd
      else if String.eqb c "build" then CaseBuild
      else if String.eqb c "init" then CaseInit
      else if String.eqb c "install" then CaseInstall
      else if String.eqb c "release" then CaseRelease
      else if String.eqb c "start" then CaseStart
      else if String.eqb c "remove" then CaseRemove
      else if String.eqb c "test" then CaseTest
      else if String.eqb c "watch" then CaseWatch
      else if String.eqb c "-h" then CaseDashH
      else if String.eqb c "--help" then CaseDashDashHelp
      else if String.eqb c "help" then CaseHelp
      else CaseDefault
  end.

(** [`${command}`] *)
Definition commandText (command : option string) : string :=
  default "undefined" command.

(** [const [path = "."] = options] *)
Definition pathOption (options : list string) : string :=
  default "." (options !! 0).

(** [option[0] !== "-"] *)
Definition notFlag (option : string) : bool :=
  match option with
  | String c _ => negb (Ascii.eqb c "-")
  | EmptyString => true
  end.

(** The [close] listener of the child of [add]; [error] is the variable
    the [error] listener sets. *)
Definition addOnClose (error : bool) (options : list string) : list CliEffect :=
  if negb error then
    flat_map (λ option,
      if notFlag option then
        [ ConsoleLog ("Added package " +:+ dq +:+ option +:+ dq +:+ ".");
          ConsoleLog ("No typing information is available for this module "
                      +:+ dq +:+ option +:+ dq +:+ ".");
          ConsoleLog ("Use " +:+ dq +:+ "import * as " +:+ option +:+ " from "
                      +:+ dq +:+ option +:+ dq +:+ ";" +:+ dq
                      +:+ " to import this module.") ]
      else []) options
  else [].

(** What Node delivers to the child of [add]: an error (with the text
    [console.error] prints for it) or the close. *)
Inductive ChildEvent :=
| ChildError (err : string)
| ChildClose.

(** The two listeners of [add] over the events of its child, from the
    value of [error]. *)
Fixpoint addListeners (error : bool) (options : list string)
    (events : list ChildEvent) : list CliEffect :=
  match events with
  | [] => []
  | ChildError err :: rest =>
      ConsoleError err :: addListeners true options rest
  | ChildClose :: rest =>
      addOnClose error options ++ addListeners error options rest
  end.

Section Cli.
Context `{CliExternals}.

(** The statements of one clause and whether it ends in [break]. *)
Definition clause (label : CaseLabel) (command : option string)
    (options : list string) : list CliEffect * bool :=
  match label with
  | CaseAdd =>
      ([CliSpawn "yarn" ("add" :: options) [Stdin; Stdout; Stderr]], true)
  | CaseBuild => ([CliExec "yarn build"], true)
  | CaseInit => ([InitializeProjectInCurrentDirectory], true)
  | CaseInstall => ([CliExec "yarn"], true)
  | CaseRelease => ([CreateLoveFile (pathOption options)], true)
  | CaseStart =>
      ([TranspileAndExecute (getFullConfigFilePath (pathOption options))], true)
  | CaseRemove =>
      ([CliExec ("yarn remove " +:+ String.concat " " options)], true)
  | CaseTest => ([CliExec "yarn test"], true)
  | CaseWatch =>
      ([TranspileExecuteAndWatch (getFullConfigFilePath (pathOption options))],
       true)
  | CaseUndefined =>
      if existsSync "tsconfig.json"
      then ([TranspileAndExecute (getFullConfigFilePath ".")], true)
      else ([ConsoleError "Could not find tsconfig.json in current directory."],
            false)
  | CaseDefault =>
      ([ConsoleError ("Unknown command " +:+ dq +:+ commandText command
                      +:+ dq +:+ ".")], false)
  | CaseDashH => ([], false)
  | CaseDashDashHelp => ([], false)
  | CaseHelp => ([ConsoleLog help], true)
  end.

(** Execution from the first of [labels] on: a clause without [break]
    falls through into the next one. *)
Fixpoint runClauses (labels : list CaseLabel) (command : option string)
    (options : list string) : list CliEffect :=
  match labels with
  | [] => []
  | label :: rest =>
      let '(effects, break) := clause label command options in
      effects ++ (if break then [] else runClauses rest command options)
  end.

(** The clauses from [label] to the end of the [switch]. *)
Fixpoint clausesFrom (label : CaseLabel) (labels : list CaseLabel)
    : list CaseLabel :=
  match labels with
  | [] => []
  | l :: rest => if bool_decide (l = label) then labels else clausesFrom label rest
  end.

(** [index.ts] on [process.argv]:
    [const [, , command, ...options] = process.argv] and the [switch]. *)
Definition main (argv : list string) : list CliEffect :=
  let command := argv !! 2 in
  let options := drop 3 argv in
  runClauses (clausesFrom (enteredAt command) caseLabels) command options.

End Cli.

(** The commands that do something: the labels before [case undefined]. *)
Definition workingCommands : list string :=
  [ "add"; "build"; "init"; "install"; "release"; "start"; "remove"; "test";
    "watch" ].

Definition helpFlags : list string := [ "-h"; "--help"; "help" ].

Definition isConsoleLog (e : CliEffect) : bool :=
  match e with ConsoleLog _ => true | _ => false end.

(** A project directory to run the command line in. *)
Module DemoCli.

Definition externals (tsconfigHere : bool) : CliExternals := {|
  getFullConfigFilePath p := "/home/dev/game/" +:+ p +:+ "/tsconfig.json";
  existsSync p := tsconfigHere && String.eqb p "tsconfig.json"
|}.

End DemoCli.

(* ===================================================================== *)
(** * Properties *)
(* ===================================================================== *)

(** ** Paths *)

Module PathFacts.
Import Path.

Lemma splitSlash_nonempty p : splitSlash p ≠ [].
Proof.
  destruct p as [|c r]; simpl; [done|].
  destruct (isSlash c); [done|]. by destruct (splitSlash r).
Qed.

Lemma splitSlash_app a b :
  splitSlash (a ++ slash :: b) = splitSlash a ++ splitSlash b.
Proof.
  induction a as [|c a IH]; simpl; [done|].
  destruct (isSlash c); [by rewrite IH|].
  rewrite IH. pose proof (splitSlash_nonempty a).
  by destruct (splitSlash a).
Qed.

Lemma splitSlash_segment f :
  forallb (λ c, negb (isSlash c)) f = true → splitSlash f = [f].
Proof.
  induction f as [|c f IH]; simpl; [done|].
  intros [Hc Hf]%andb_prop. destruct (isSlash c); [done|].
  by rewrite IH.
Qed.

Lemma plainName_inv f :
  plainName f = true →
  f ≠ [] ∧ forallb (λ c, negb (isSlash c)) f = true ∧ f ≠ dot ∧ f ≠ dotdot.
Proof.
  unfold plainName. rewrite !andb_true_iff, !negb_true_iff.
  intros [[[H1 H2] H3] H4].
  apply bool_decide_eq_false in H1, H3, H4. done.
Qed.

Lemma pushSegment_plain allow res f :
  plainName f = true → pushSegment allow res f = f :: res.
Proof.
  intros (H1 & _ & H3 & H4)%plainName_inv. unfold pushSegment.
  by rewrite !bool_decide_eq_false_2.
Qed.

(** The joined segments end with the last segment, right after a
    separator if anything precedes it. *)
Lemma joinSlash_snoc segs f :
  ∃ pre, joinSlash (segs ++ [f]) = pre ++ f
         ∧ (pre = [] ∨ ∃ pre', pre = pre' ++ [slash]).
Proof.
  induction segs as [|s segs (pre & Heq & Hpre)]; simpl.
  - exists []. auto.
  - rewrite Heq. destruct (segs ++ [f]) eqn:E.
    + by destruct segs.
    + exists (s ++ slash :: pre). split; [by rewrite <-app_assoc|].
      right. destruct Hpre as [->|[pre' ->]].
      * exists s. done.
      * exists (s ++ slash :: pre'). by rewrite <-app_assoc.
Qed.

Lemma takeToSlash_plain f rest :
  forallb (λ c, negb (isSlash c)) f = true →
  (rest = [] ∨ ∃ rest', rest = slash :: rest') →
  takeToSlash (f ++ rest) = f.
Proof.
  intros Hf Hrest. induction f as [|c f IH]; simpl.
  - destruct Hrest as [->|[rest' ->]]; done.
  - simpl in Hf. apply andb_prop in Hf as [Hc Hf].
    destruct (isSlash c); [done|]. by rewrite IH.
Qed.

Lemma forallb_rev {A} (P : A → bool) l :
  forallb P (rev l) = forallb P l.
Proof.
  induction l as [|x l IH]; simpl; [done|].
  rewrite forallb_app, IH. simpl. rewrite andb_true_r. apply andb_comm.
Qed.

(** The base name of anything that ends in a separator followed by a
    plain name is that name. *)
Lemma basenameChars_plain pre f :
  plainName f = true →
  (pre = [] ∨ ∃ pre', pre = pre' ++ [slash]) →
  basenameChars (pre ++ f) = f.
Proof.
  intros (Hne & Hf & _)%plainName_inv Hpre. unfold basenameChars.
  rewrite rev_app_distr.
  assert (Hrf : forallb (λ c, negb (isSlash c)) (rev f) = true)
    by by rewrite forallb_rev.
  assert (Hdrop : dropSlashes (rev f ++ rev pre) = rev f ++ rev pre).
  { destruct (rev f) as [|c r] eqn:E.
    - apply (f_equal (@rev ascii)) in E. rewrite rev_involutive in E. done.
    - simpl in *. apply andb_prop in Hrf as [Hc _].
      by destruct (isSlash c). }
  rewrite Hdrop, takeToSlash_plain, rev_involutive; [done|done|].
  destruct Hpre as [->|[pre' ->]]; [by left|right].
  rewrite rev_app_distr. simpl. eauto.
Qed.

Lemma last_not_slash p f :
  plainName f = true →
  match rev (p ++ f) with l :: _ => isSlash l | [] => false end = false.
Proof.
  intros (Hne & Hf & _)%plainName_inv. rewrite rev_app_distr.
  rewrite <-forallb_rev in Hf.
  destruct (rev f) as [|c r] eqn:E; simpl in *.
  - apply (f_equal (@rev ascii)) in E. rewrite rev_involutive in E. done.
  - apply andb_prop in Hf as [Hc _]. by destruct (isSlash c).
Qed.

(** Normalizing a path that ends in a plain name keeps that name last. *)
Lemma normalizeChars_plain p f :
  plainName f = true →
  (p = [] ∨ ∃ p', p = p' ++ [slash]) →
  ∃ pre, normalizeChars (p ++ f) = pre ++ f
         ∧ (pre = [] ∨ ∃ pre', pre = pre' ++ [slash]).
Proof.
  intros Hf Hp. pose proof (plainName_inv _ Hf) as (Hne & Hns & _).
  unfold normalizeChars.
  destruct (p ++ f) as [|c r] eqn:E; [by destruct p, f|].
  rewrite <-E. rewrite last_not_slash by done.
  assert (Hsplit : ∃ segs, splitSlash (p ++ f) = segs ++ [f]).
  { destruct Hp as [->|[p' ->]].
    - exists []. simpl. by apply splitSlash_segment.
    - rewrite <-app_assoc. simpl. rewrite splitSlash_app.
      rewrite (splitSlash_segment f) by done. eauto. }
  destruct Hsplit as [segs ->].
  rewrite fold_left_app. simpl. rewrite pushSegment_plain by done.
  simpl.
  destruct (joinSlash_snoc
              (rev (fold_left (pushSegment (negb (isSlash c))) segs [])) f)
    as (pre & -> & Hpre).
  destruct (pre ++ f) as [|x y] eqn:E2; [by destruct pre, f|].
  rewrite <-E2. rewrite app_nil_r.
  destruct (isSlash c); simpl.
  - exists (slash :: pre). split; [done|]. right.
    destruct Hpre as [->|[pre' ->]]; [by exists []|by exists (slash :: pre')].
  - eauto.
Qed.

Lemma list_ascii_of_string_inj a b :
  list_ascii_of_string a = list_ascii_of_string b → a = b.
Proof.
  intros E. apply (f_equal string_of_list_ascii) in E.
  by rewrite !string_of_list_ascii_of_string in E.
Qed.

(** [path.basename (path.join (dir, f)) = f] for a plain file name. *)
Lemma basename_join dir f :
  plainName (list_ascii_of_string f) = true →
  basename (join dir f) = f.
Proof.
  intros Hf. unfold basename, join.
  rewrite list_ascii_of_string_of_list_ascii.
  set (d := list_ascii_of_string dir). set (n := list_ascii_of_string f) in *.
  assert (∃ pre, joinChars d n = pre ++ n
                 ∧ (pre = [] ∨ ∃ pre', pre = pre' ++ [slash]))
    as (pre & -> & Hpre).
  { unfold joinChars. destruct d as [|c d'], n as [|x n'] eqn:En;
      try done.
    - apply (normalizeChars_plain [] (x :: n')); auto.
    - change (c :: d' ++ slash :: x :: n')
        with ((c :: d') ++ slash :: x :: n').
      replace ((c :: d') ++ slash :: x :: n')
        with (((c :: d') ++ [slash]) ++ x :: n') by by rewrite <-app_assoc.
      apply normalizeChars_plain; eauto. }
  rewrite basenameChars_plain by done.
  apply string_of_list_ascii_of_string.
Qed.

Lemma join_conf dir : basename (join dir "conf.lua") = "conf.lua".
Proof. by apply basename_join. Qed.

Lemma join_lume dir : basename (join dir "lume.lua") = "lume.lua".
Proof. by apply basename_join. Qed.

Lemma join_lurker dir : basename (join dir "lurker.lua") = "lurker.lua".
Proof. by apply basename_join. Qed.

End PathFacts.

Example basename_nested :
  Path.basename "/tmp/out/scenes/conf.lua" = "conf.lua".
Proof. reflexivity. Qed.

Example basename_trailing : Path.basename "/tmp/out/" = "out".
Proof. reflexivity. Qed.

Example join_plain : Path.join "/tmp/out" "conf.lua" = "/tmp/out/conf.lua".
Proof. reflexivity. Qed.

Example join_dots : Path.join "/opt/love-ts/dist/" "../lib/lume.lua" = "/opt/love-ts/lib/lume.lua".
Proof. reflexivity. Qed.

Example join_relative : Path.join "../a/./b//" "lume.lua" = "../a/b/lume.lua".
Proof. reflexivity. Qed.

Example join_empty_dir : Path.join EmptyString "conf.lua" = "conf.lua".
Proof. reflexivity. Qed.

Example join_above_root : Path.join "/" "../conf.lua" = "/conf.lua".
Proof. reflexivity. Qed.



(** ** Running computations *)

Lemma run_bind {A B} (m : M A) (f : A → M B) s :
  (m ≫= f) s =
  match m s with
  | Done a s1 e1 =>
      match f a s1 with
      | Done b s2 e2 => Done b s2 (e1 ++ e2)
      | Exited c s2 e2 => Exited c s2 (e1 ++ e2)
      end
  | Exited c s1 e1 => Exited c s1 e1
  end.
Proof. reflexivity. Qed.

Lemma run_bind_done {A B} (m : M A) (f : A → M B) s a s1 e1 :
  m s = Done a s1 e1 →
  (m ≫= f) s =
  match f a s1 with
  | Done b s2 e2 => Done b s2 (e1 ++ e2)
  | Exited c s2 e2 => Exited c s2 (e1 ++ e2)
  end.
Proof. intros E. by rewrite run_bind, E. Qed.

Lemma replay_app e1 e2 disk : replay (e1 ++ e2) disk = replay e2 (replay e1 disk).
Proof. apply fold_left_app. Qed.

Lemma set_files_id s : set_files (replay []) s = s.
Proof. by destruct s. Qed.

Lemma set_files_compose f g s : set_files g (set_files f s) = set_files (g ∘ f) s.
Proof. by destruct s. Qed.

Lemma set_files_replay_app e1 e2 s :
  set_files (replay e2) (set_files (replay e1) s) = set_files (replay (e1 ++ e2)) s.
Proof. destruct s. unfold set_files. simpl. by rewrite replay_app. Qed.

(** ** The emitter *)

Section EmitFacts.
Context `{Externals}.

Lemma run_writeFile p d s :
  writeFile p d s = Done tt (set_files (replay [WriteFile p d]) s) [WriteFile p d].
Proof. reflexivity. Qed.

(** The loop over the output files writes each file once, in order, and
    remembers whether one of them was a [conf.lua]. *)
Lemma emitFiles_loop outputFiles wroteConf s :
  forEachWith outputFiles (λ wroteConf f,
      if String.eqb (Path.basename (name f)) "conf.lua" then
        writeFile (name f) (luaConfHead +:+ nl +:+ text f) ;;
        mret true
      else if String.eqb (Path.basename (name f)) "main.lua" then
        writeFile (name f) (text f +:+ nl +:+ luaMainTail) ;;
        mret wroteConf
      else
        writeFile (name f) (text f) ;;
        mret wroteConf) wroteConf s
  = Done (wroteConf || existsb isConf outputFiles)
         (set_files (replay (emitted <$> outputFiles)) s)
         (emitted <$> outputFiles).
Proof.
  revert wroteConf s.
  induction outputFiles as [|f rest IH]; intros wroteConf s; simpl.
  - by rewrite orb_false_r, set_files_id.
  - rewrite run_bind.
    change (emitted f) with (WriteFile (name f) (emittedText f)).
    unfold emittedText.
    change (isConf f) with (String.eqb (Path.basename (name f)) "conf.lua").
    change (isMain f) with (String.eqb (Path.basename (name f)) "main.lua").
    destruct (String.eqb (Path.basename (name f)) "conf.lua") eqn:Ec;
      [|destruct (String.eqb (Path.basename (name f)) "main.lua") eqn:Em];
      rewrite run_bind, run_writeFile; simpl; rewrite IH; simpl;
      rewrite set_files_replay_app; simpl;
      rewrite ?orb_true_r; done.
Qed.

(** What one call of the emitter does, whatever the state it starts in. *)
Lemma emitFiles_run outputFiles passOptions s :
  emitFiles outputFiles passOptions s
  = Done tt
      (set_files (replay (emitFilesEvents outputFiles passOptions s))
         (if firstEmission s
          then set_lurkerContent (Some (bundled lurkerPath))
                 (set_lumeContent (Some (bundled lumePath)) s)
          else s))
      (emitFilesEvents outputFiles passOptions s).
Proof.
  unfold emitFiles, emitFilesEvents, confFallback.
  rewrite (run_bind_done _ _ _ _ _ _ (emitFiles_loop outputFiles false s)).
  simpl (false || _). unfold firstEmission. destruct s as [disk lume lurker r fr cm lr cl].
  unfold mbind, M_bind, mret, M_ret, gets, modify, emit, readFile, writeFile,
    runtimeSupportCopy.
  destruct (existsb isConf outputFiles), (falsy lume && falsy lurker) eqn:E;
    simpl; rewrite ?E; simpl; rewrite ?app_nil_r; unfold set_files; simpl;
    rewrite ?replay_app; simpl; try done.
Qed.

End EmitFacts.

(** ** One pass *)

Section PassFacts.
Context `{Externals}.

Lemma forEach_emit {A} (g : A → Event) (l : list A) s :
  forEach l (λ x, emit (g x)) s = Done tt s (g <$> l).
Proof.
  induction l as [|x l IH]; simpl; [done|].
  rewrite run_bind. unfold emit at 1. by rewrite IH.
Qed.

(** Lines 113-134 cause no event and touch only the cache of parsed
    configuration files. *)
Lemma configFileParsingDiagnostics_run optionsToExtend b s :
  ∃ cache,
    configFileParsingDiagnostics optionsToExtend (getCompilerOptions b) s
    = Done (optionsOfPass optionsToExtend b s,
            configDiagnosticsOfPass optionsToExtend b s)
           (set_configFileMap cache s) [].
Proof.
  unfold optionsOfPass, configDiagnosticsOfPass, configFileParsingDiagnostics.
  destruct s as [disk lume lurker r fr cm lr cl].
  destruct (configFile (getCompilerOptions b)) as [cf|];
    [|by exists cm].
  destruct (configFilePath (getCompilerOptions b)) as [p|];
    [|by exists cm].
  destruct (String.eqb p EmptyString); [by exists cm|].
  unfold mbind, M_bind, mret, M_ret, gets, modify. simpl.
  destruct (bool_decide (is_Some (cm !! cf))) eqn:E; simpl.
  - destruct (cm !! cf); by exists cm.
  - rewrite lookup_insert_eq. by eexists.
Qed.

(** Lines 113-134, the diagnostics: the errors of the parse the cache
    holds for the configuration file of the build, or of a fresh parse when
    the cache holds none; nothing when the build names no configuration
    file or an empty path. *)
Lemma configDiagnosticsOfPass_eq optionsToExtend b s :
  configDiagnosticsOfPass optionsToExtend b s
  = match configFile (getCompilerOptions b),
          configFilePath (getCompilerOptions b) with
    | Some cf, Some cfPath =>
        if String.eqb cfPath EmptyString then []
        else errors (default (parseConfigFile cf cfPath optionsToExtend)
                             (configFileMap s !! cf))
    | _, _ => []
    end.
Proof.
  unfold configDiagnosticsOfPass, configFileParsingDiagnostics.
  destruct s as [disk lume lurker r fr cm lr cl].
  destruct (configFile (getCompilerOptions b)) as [cf|]; [|done].
  destruct (configFilePath (getCompilerOptions b)) as [p|]; [|done].
  destruct (String.eqb p EmptyString); [done|].
  unfold mbind, M_bind, mret, M_ret, gets, modify. simpl.
  destruct (cm !! cf) as [cached|] eqn:E; simpl.
  - by rewrite E.
  - by rewrite lookup_insert_eq.
Qed.

Lemma replay_reports r ds disk : replay (ReportDiagnostic r <$> ds) disk = disk.
Proof. induction ds as [|d ds IH]; [done|]. apply IH. Qed.

(** Of the events of a pass only those of the emitter touch the disk. *)
Lemma replay_passEvents host optionsToExtend b s disk :
  replay (passEvents host optionsToExtend b s) disk
  = replay (emitFilesEvents (emitResultOfPass optionsToExtend b s)
              (optionsOfPass optionsToExtend b s) s) disk.
Proof.
  unfold passEvents. rewrite !replay_app, replay_reports.
  by destruct (loveIsRunning s).
Qed.

Lemma afterProgramCreate_run host optionsToExtend b s :
  ∃ s',
    afterProgramCreate host optionsToExtend b s
    = Done tt s' (passEvents host optionsToExtend b s)
    ∧ files s' = replay (passEvents host optionsToExtend b s) (files s)
    ∧ fullRecompile s'
      = Nat.ltb 0 (List.length (List.filter isError
          (sortAndDeduplicateDiagnostics (mergedDiagnostics optionsToExtend b s))))
    ∧ loveIsRunning s' = true
    ∧ reportDiagnostic s' = reportDiagnostic s
    ∧ lumeContent s'
      = (if firstEmission s then Some (bundled lumePath) else lumeContent s)
    ∧ lurkerContent s'
      = (if firstEmission s then Some (bundled lurkerPath) else lurkerContent s)
    ∧ closeListener s'
      = (if loveIsRunning s then closeListener s
         else Some (outDir optionsToExtend)).
Proof.
  destruct (configFileParsingDiagnostics_run optionsToExtend b s) as [cache Hcfg].
  rewrite replay_passEvents.
  unfold afterProgramCreate, passEvents, mergedDiagnostics, emitResultOfPass.
  rewrite (run_bind_done _ _ _ _ _ _ Hcfg).
  rewrite run_bind. unfold gets at 1. cbn beta iota.
  assert (Hsf : (if negb (fullRecompile (set_configFileMap cache s))
                 then Some (nextAffectedFiles (affectedPending b) [])
                 else None) = sourceFilesOfPass b s).
  { unfold sourceFilesOfPass. destruct s as [? ? ? ? fr ? ? ?]; simpl.
    by destruct fr. }
  rewrite Hsf. clear Hsf.
  rewrite run_bind. unfold emit at 1. cbn beta iota.
  destruct (transpile (getProgram b) (sourceFilesOfPass b s)) as [ed tfs].
  cbn [fst snd].
  rewrite run_bind, emitFiles_run.
  rewrite run_bind. unfold gets at 1. cbn beta iota.
  rewrite run_bind, forEach_emit.
  rewrite run_bind. unfold modify at 1. cbn beta iota.
  rewrite run_bind. unfold emit at 1. cbn beta iota.
  rewrite run_bind. unfold gets at 1. cbn beta iota.
  destruct s as [disk lume lurker r fr cm lr cl].
  unfold firstEmission, emitFilesEvents, firstEmission. simpl.
  destruct (falsy lume && falsy lurker), lr; simpl;
    unfold mbind, M_bind, mret, M_ret, modify, spawn, emit; simpl;
    (eexists; split; [reflexivity|]); simpl; rewrite ?app_nil_r;
    repeat split.
Qed.

End PassFacts.

(** ** The parts of a pass, seen through each kind of event *)

Section Views.
Context `{Externals}.

Lemma omap_none {A B} (f : A → option B) l :
  Forall (λ x, f x = None) l → omap f l = [].
Proof. induction 1 as [|x l Hx _ IH]; simpl; [done|]. by rewrite Hx. Qed.

Lemma omap_fmap_some {A B C} (f : B → option C) (g : A → B) (h : A → C)
    (l : list A) :
  (∀ x, f (g x) = Some (h x)) → omap f (g <$> l) = h <$> l.
Proof.
  intros Hf. induction l as [|x l IH]; [done|].
  change (omap f (g <$> x :: l))
    with (match f (g x) with
          | Some y => y :: omap f (g <$> l)
          | None => omap f (g <$> l)
          end).
  by rewrite Hf, IH.
Qed.

Lemma filter_none {A} (f : A → bool) l :
  Forall (λ x, f x = false) l → List.filter f l = [].
Proof. induction 1 as [|x l Hx _ IH]; simpl; [done|]. by rewrite Hx. Qed.

Lemma filter_all {A} (f : A → bool) l :
  Forall (λ x, f x = true) l → List.filter f l = l.
Proof. induction 1 as [|x l Hx _ IH]; simpl; [done|]. by rewrite Hx, IH. Qed.

Lemma emitFilesEvents_files outputFiles o s :
  Forall (λ e, isFileEvent e = true) (emitFilesEvents outputFiles o s).
Proof.
  unfold emitFilesEvents, confFallback, runtimeSupportCopy.
  rewrite !Forall_app. split_and!.
  - apply Forall_fmap, Forall_true. done.
  - destruct (existsb isConf outputFiles); repeat constructor.
  - destruct (firstEmission s); repeat constructor.
Qed.

Lemma emitFilesEvents_omap {B} (f : Event → option B) outputFiles o s :
  (∀ e, isFileEvent e = true → f e = None) →
  omap f (emitFilesEvents outputFiles o s) = [].
Proof.
  intros Hf. apply omap_none.
  eapply Forall_impl; [apply emitFilesEvents_files|]. done.
Qed.

Lemma emitFilesEvents_filter (f : Event → bool) outputFiles o s :
  (∀ e, isFileEvent e = true → f e = false) →
  List.filter f (emitFilesEvents outputFiles o s) = [].
Proof.
  intros Hf. apply filter_none.
  eapply Forall_impl; [apply emitFilesEvents_files|]. done.
Qed.

Lemma reports_omap {B} (f : Event → option B) r ds :
  (∀ d, f (ReportDiagnostic r d) = None) →
  omap f (ReportDiagnostic r <$> ds) = [].
Proof. intros Hf. apply omap_none, Forall_fmap, Forall_true. done. Qed.

Lemma reports_filter (f : Event → bool) r ds :
  (∀ d, f (ReportDiagnostic r d) = false) →
  List.filter f (ReportDiagnostic r <$> ds) = [].
Proof. intros Hf. apply filter_none, Forall_fmap, Forall_true. done. Qed.

Lemma not_file_event (e : Event) :
  isFileEvent e = true →
  match e with WriteFile _ _ | ReadFile _ => True | _ => False end.
Proof. by destruct e. Qed.

Variables (host : WatchCompilerHost) (optionsToExtend : CompilerOptions).
Variables (b : BuilderProgram) (s : State).

Lemma transpileCalls_pass :
  transpileCalls (passEvents host optionsToExtend b s) = [sourceFilesOfPass b s].
Proof.
  unfold transpileCalls, passEvents. rewrite !omap_app.
  rewrite emitFilesEvents_omap, reports_omap; [|done|by intros []].
  by destruct (loveIsRunning s).
Qed.

Lemma reported_pass :
  reported (passEvents host optionsToExtend b s)
  = sortAndDeduplicateDiagnostics (mergedDiagnostics optionsToExtend b s).
Proof.
  unfold reported, passEvents. rewrite !omap_app.
  rewrite emitFilesEvents_omap by by intros [].
  rewrite (omap_fmap_some _ _ id) by done. rewrite list_fmap_id.
  destruct (loveIsRunning s); simpl; by rewrite app_nil_r.
Qed.

Lemma reporters_pass :
  reporters (passEvents host optionsToExtend b s)
  = (λ _, reportDiagnostic s)
    <$> sortAndDeduplicateDiagnostics (mergedDiagnostics optionsToExtend b s).
Proof.
  unfold reporters, passEvents. rewrite !omap_app.
  rewrite emitFilesEvents_omap by by intros [].
  rewrite (omap_fmap_some _ _ (λ _, reportDiagnostic s)) by done.
  destruct (loveIsRunning s); simpl; by rewrite app_nil_r.
Qed.

Lemma summaries_pass :
  summaries (passEvents host optionsToExtend b s)
  = [List.length (List.filter isError
       (sortAndDeduplicateDiagnostics (mergedDiagnostics optionsToExtend b s)))].
Proof.
  unfold summaries, passEvents. rewrite !omap_app.
  rewrite emitFilesEvents_omap, reports_omap; [|done|by intros []].
  by destruct (loveIsRunning s).
Qed.

Lemma spawns_pass :
  List.filter isSpawn (passEvents host optionsToExtend b s)
  = if loveIsRunning s then [] else [lovec optionsToExtend].
Proof.
  unfold passEvents. rewrite !List.filter_app.
  rewrite emitFilesEvents_filter, reports_filter; [|done|by intros []].
  by destruct (loveIsRunning s).
Qed.

Lemma reads_pass :
  List.filter isReadFile (passEvents host optionsToExtend b s)
  = if firstEmission s then [ReadFile lumePath; ReadFile lurkerPath] else [].
Proof.
  unfold passEvents. rewrite !List.filter_app.
  rewrite reports_filter by done.
  unfold emitFilesEvents. rewrite !List.filter_app.
  rewrite (filter_none _ (emitted <$> _))
    by (apply Forall_fmap, Forall_true; done).
  assert (List.filter isReadFile
            (confFallback (emitResultOfPass optionsToExtend b s)
               (outDir (optionsOfPass optionsToExtend b s))) = []) as ->.
  { unfold confFallback. by destruct (existsb isConf _). }
  destruct (firstEmission s), (loveIsRunning s); done.
Qed.

Lemma writes_pass :
  List.filter isWriteFile (passEvents host optionsToExtend b s)
  = List.filter isWriteFile
      (emitFilesEvents (emitResultOfPass optionsToExtend b s)
         (optionsOfPass optionsToExtend b s) s).
Proof.
  unfold passEvents. rewrite !List.filter_app.
  rewrite reports_filter by done.
  destruct (loveIsRunning s); simpl; by rewrite app_nil_r.
Qed.

End Views.

(** ** The passes of a session *)

Section RunFacts.
Context `{Externals}.

Lemma passRuns_first callback b rest s :
  passRuns callback (b :: rest) s !! 0 = Some (callback b s).
Proof. simpl. by destruct (callback b s). Qed.

Lemma passRuns_done callback b rest s a s' evs :
  callback b s = Done a s' evs →
  concat (eventsOf <$> passRuns callback (b :: rest) s)
  = evs ++ concat (eventsOf <$> passRuns callback rest s').
Proof. intros E. simpl. by rewrite E. Qed.

Lemma passRuns_next callback builds s m o' o :
  passRuns callback builds s !! m = Some o' →
  passRuns callback builds s !! S m = Some o →
  ∃ b, builds !! S m = Some b ∧ o = callback b (stateOf o').
Proof.
  revert s m. induction builds as [|b0 rest IH]; intros s m; [done|].
  simpl. destruct (callback b0 s) as [a s1 e1|c s1 e1] eqn:E; [|done].
  destruct m as [|m]; simpl.
  - intros [= <-] Ho. destruct rest as [|b1 rest]; [done|].
    rewrite passRuns_first in Ho. exists b1. naive_solver.
  - apply IH.
Qed.

Lemma passRuns_events callback builds s :
  eventsOf (forEach builds callback s)
  = concat (eventsOf <$> passRuns callback builds s).
Proof.
  revert s. induction builds as [|b rest IH]; intros s; simpl; [done|].
  rewrite run_bind. destruct (callback b s) as [a s1 e1|c s1 e1]; simpl.
  - rewrite <-IH. by destruct (forEach rest callback s1).
  - by rewrite app_nil_r.
Qed.

Lemma elem_of_concat_runs (runs : list (Outcome unit)) n o e :
  runs !! n = Some o → e ∈ eventsOf o → e ∈ concat (eventsOf <$> runs).
Proof.
  revert n. induction runs as [|o0 runs IH]; intros n Hn He; [done|].
  change (e ∈ eventsOf o0 ++ concat (eventsOf <$> runs)).
  apply elem_of_app. destruct n as [|n]; simpl in Hn.
  - left. congruence.
  - right. eauto.
Qed.

Variable optionsToExtend : CompilerOptions.
Local Abbreviation host := (hostOf optionsToExtend).

Lemma sessionStart_eq s :
  sessionStart optionsToExtend s
  = set_loveIsRunning false (set_configFileMap ∅ (set_fullRecompile true s)).
Proof. reflexivity. Qed.

Lemma sessionRuns_eq builds s :
  sessionRuns optionsToExtend builds s
  = passRuns (afterProgramCreate host optionsToExtend) builds
      (sessionStart optionsToExtend s).
Proof. reflexivity. Qed.

Lemma session_events configFileName builds s :
  eventsOf (createWatchOfConfigFile configFileName optionsToExtend builds s)
  = concat (eventsOf <$> sessionRuns optionsToExtend builds s).
Proof.
  rewrite sessionRuns_eq, <-passRuns_events.
  unfold createWatchOfConfigFile, createWatchProgram. rewrite run_bind.
  change (updateWatchCompilationHost _ optionsToExtend s)
    with (Done (afterProgramCreate host optionsToExtend)
            (sessionStart optionsToExtend s) []).
  cbn beta iota.
  by destruct (forEach builds _ _).
Qed.

(** Every pass of a session is a run of [afterProgramCreate], from the
    state the session starts in or the state the pass before ended in. *)
Lemma sessionRuns_first b rest s :
  sessionRuns optionsToExtend (b :: rest) s !! 0
  = Some (afterProgramCreate host optionsToExtend b
            (sessionStart optionsToExtend s)).
Proof. rewrite sessionRuns_eq. apply passRuns_first. Qed.

Lemma sessionRuns_next builds s m o' o :
  sessionRuns optionsToExtend builds s !! m = Some o' →
  sessionRuns optionsToExtend builds s !! S m = Some o →
  ∃ b, builds !! S m = Some b
       ∧ o = afterProgramCreate host optionsToExtend b (stateOf o').
Proof. rewrite sessionRuns_eq. apply passRuns_next. Qed.

Lemma sessionRuns_before builds s m o :
  sessionRuns optionsToExtend builds s !! S m = Some o →
  ∃ o', sessionRuns optionsToExtend builds s !! m = Some o'.
Proof.
  intros Ho. apply lookup_lt_is_Some. apply lookup_lt_Some in Ho. lia.
Qed.

Lemma sessionRuns_pass builds s n o :
  sessionRuns optionsToExtend builds s !! n = Some o →
  ∃ b s0, builds !! n = Some b
          ∧ o = afterProgramCreate host optionsToExtend b s0
          ∧ s0 = match n with
                 | 0 => sessionStart optionsToExtend s
                 | S m => from_option stateOf s0
                            (sessionRuns optionsToExtend builds s !! m)
                 end.
Proof.
  destruct n as [|m]; intros Ho.
  - destruct builds as [|b rest]; [done|].
    rewrite sessionRuns_first in Ho. naive_solver.
  - destruct (sessionRuns_before _ _ _ _ Ho) as [o' Ho'].
    destruct (sessionRuns_next _ _ _ _ _ Ho' Ho) as (b & Hb & ->).
    exists b, (stateOf o'). by rewrite Ho'.
Qed.

(** After any pass of a session LÖVE is running, and the reporter of
    diagnostics is the one the session started with. *)
Lemma sessionRuns_after builds s n o :
  sessionRuns optionsToExtend builds s !! n = Some o →
  loveIsRunning (stateOf o) = true
  ∧ reportDiagnostic (stateOf o) = reportDiagnostic s.
Proof.
  revert o. induction n as [|m IH]; intros o Ho.
  - destruct (sessionRuns_pass _ _ _ _ Ho) as (b & s0 & _ & -> & ->).
    destruct (afterProgramCreate_run host optionsToExtend b
                (sessionStart optionsToExtend s))
      as (s' & -> & _ & _ & Hr & Hd & _).
    simpl. by rewrite Hr, Hd.
  - destruct (sessionRuns_before _ _ _ _ Ho) as [o' Ho'].
    destruct (sessionRuns_next _ _ _ _ _ Ho' Ho) as (b & Hb & ->).
    destruct (IH _ Ho') as [_ Hd'].
    destruct (afterProgramCreate_run host optionsToExtend b (stateOf o'))
      as (s' & -> & _ & _ & Hr & Hd & _).
    simpl. by rewrite Hr, Hd.
Qed.

End RunFacts.

(* ===================================================================== *)
(** * The mode of each pass *)
(* ===================================================================== *)

Section Mode.
Context `{Externals}.

Lemma some_error_counted (ds : list Diagnostic) :
  Nat.ltb 0 (List.length (List.filter isError ds)) = existsb isError ds.
Proof.
  induction ds as [|d ds IH]; simpl; [done|].
  destruct (isError d); simpl; [done|]. apply IH.
Qed.

(** A pass runs in the mode [fullRecompile] selects when it starts, and
    leaves [fullRecompile] set exactly when it reported an error. *)
Lemma pass_mode host optionsToExtend b s :
  let o := afterProgramCreate host optionsToExtend b s in
  ranFull (eventsOf o) = fullRecompile s
  ∧ ranIncremental (eventsOf o) = negb (fullRecompile s)
  ∧ fullRecompile (stateOf o) = reportedError (eventsOf o).
Proof.
  destruct (afterProgramCreate_run host optionsToExtend b s)
    as (s' & E & _ & Hfull & _).
  cbv zeta. rewrite E. simpl.
  unfold ranFull, ranIncremental, reportedError.
  rewrite transpileCalls_pass, reported_pass, Hfull, some_error_counted.
  unfold sourceFilesOfPass. by destruct (fullRecompile s).
Qed.

End Mode.

(** C1. The first pass of a session runs in full mode. Every later pass
    runs in full mode exactly when the pass before it reported (in its
    sorted, de-duplicated diagnostics) at least one diagnostic of category
    Error, and in incremental mode otherwise. *)
Theorem pass_mode_follows_errors `{Externals} optionsToExtend builds s n o :
  sessionRuns optionsToExtend builds s !! n = Some o →
  (ranFull (eventsOf o) = true ↔
     n = 0 ∨ ∃ m o', n = S m
                     ∧ sessionRuns optionsToExtend builds s !! m = Some o'
                     ∧ reportedError (eventsOf o') = true)
  ∧ ranIncremental (eventsOf o) = negb (ranFull (eventsOf o)).
Proof.
  intros Ho.
  destruct (sessionRuns_pass _ _ _ _ _ Ho) as (b & s0 & _ & -> & Hs0).
  destruct (pass_mode (hostOf optionsToExtend) optionsToExtend b s0)
    as (-> & -> & _).
  split; [|done]. destruct n as [|m].
  - rewrite Hs0. split; [auto|done].
  - destruct (sessionRuns_before _ _ _ _ _ Ho) as [o' Ho'].
    rewrite Ho' in Hs0. simpl in Hs0. subst s0.
    destruct (sessionRuns_pass _ _ _ _ _ Ho') as (b' & s1 & _ & -> & _).
    destruct (pass_mode (hostOf optionsToExtend) optionsToExtend b' s1)
      as (_ & _ & ->).
    split.
    + intros E. right. eauto.
    + intros [?|(m' & o'' & [= <-] & Ho'' & E)]; [done|].
      rewrite Ho' in Ho''. by injection Ho'' as <-.
Qed.

Lemma pass_mode_follows_errors_witness :
  ∃ o, sessionRuns Demo.options Demo.session (startOfProcess ∅) !! 2 = Some o
       ∧ (ranFull (eventsOf o) = true ↔
            2 = 0 ∨ ∃ m o', 2 = S m
              ∧ sessionRuns Demo.options Demo.session (startOfProcess ∅) !! m
                = Some o'
              ∧ reportedError (eventsOf o') = true)
       ∧ ranIncremental (eventsOf o) = negb (ranFull (eventsOf o)).
Proof.
  eexists. split; [vm_compute; reflexivity|].
  apply (pass_mode_follows_errors Demo.options Demo.session (startOfProcess ∅) 2).
  vm_compute. reflexivity.
Defined.

Example demo_modes :
  (λ o, ranFull (eventsOf o))
    <$> sessionRuns Demo.options Demo.session (startOfProcess ∅)
  = [true; false; true; false].
Proof. vm_compute. reflexivity. Qed.

(* ===================================================================== *)
(** * The source files of an incremental pass *)
(* ===================================================================== *)

(** The loop hands out every pending unit, in order: a file for a
    single-file unit, all the files of its program for the other kind. *)
Lemma nextAffectedFiles_spec pending sourceFiles :
  nextAffectedFiles pending sourceFiles
  = sourceFiles ++ flat_map unitFiles pending.
Proof.
  revert sourceFiles.
  induction pending as [|r pending IH]; intros sourceFiles; simpl.
  - by rewrite app_nil_r.
  - rewrite IH. unfold unitFiles. destruct (affected r); by rewrite <-app_assoc.
Qed.

(** One turn of the loop: ask the builder for the next affected unit;
    stop if there is none, else push its files and go on with what is
    still pending. *)
Lemma nextAffectedFiles_loop b sourceFiles :
  nextAffectedFiles (affectedPending b) sourceFiles
  = match getSemanticDiagnosticsOfNextAffectedFile b with
    | (None, _) => sourceFiles
    | (Some currentFile, b') =>
        nextAffectedFiles (affectedPending b') (sourceFiles ++ unitFiles currentFile)
    end.
Proof.
  unfold getSemanticDiagnosticsOfNextAffectedFile.
  destruct (affectedPending b) as [|currentFile rest]; [done|].
  simpl. unfold unitFiles. by destruct (affected currentFile).
Qed.

Example demo_affected_units :
  nextAffectedFiles
    [ {| result := []; affected := AffectedFile {| fileName := "util.ts" |} |};
      {| result := []; affected := AffectedProgram (Demo.program []) |} ] []
  = [ {| fileName := "util.ts" |}; {| fileName := "main.ts" |};
      {| fileName := "util.ts" |} ].
Proof. reflexivity. Qed.

(** C7. In incremental mode the transpiler is called with the source files
    collected by asking for the next affected unit until none is left (a
    single-file unit gives that file, a program unit gives all source files
    of its program), and the files the pass emits are those the transpiler
    returns for that list; in full mode the transpiler is called without a
    list, and the pass emits what it returns for the whole program. *)
Theorem incremental_pass_transpiles_affected_units `{Externals}
    host optionsToExtend b s :
  let o := afterProgramCreate host optionsToExtend b s in
  let sourceFiles :=
    if fullRecompile s then None
    else Some (flat_map unitFiles (affectedPending b)) in
  let outputFiles :=
    emitTranspiledFiles (optionsOfPass optionsToExtend b s)
      (transpile (getProgram b) sourceFiles).2 in
  transpileCalls (eventsOf o) = [sourceFiles]
  ∧ eventsOf o = Transpile sourceFiles :: drop 1 (eventsOf o)
  ∧ take (List.length outputFiles) (List.filter isWriteFile (eventsOf o))
    = emitted <$> outputFiles
  ∧ ∀ e, e ∈ drop (List.length outputFiles) (List.filter isWriteFile (eventsOf o)) →
         e = WriteFile (Path.join (outDir (optionsOfPass optionsToExtend b s)) "conf.lua")
               luaConfHead
         ∨ e ∈ runtimeSupportCopy (outDir (optionsOfPass optionsToExtend b s)).
Proof.
  destruct (afterProgramCreate_run host optionsToExtend b s) as (s' & E & _).
  cbv zeta. rewrite E. simpl eventsOf.
  assert (Hsf : (if fullRecompile s then None
                 else Some (flat_map unitFiles (affectedPending b)))
                = sourceFilesOfPass b s).
  { unfold sourceFilesOfPass. by rewrite nextAffectedFiles_spec. }
  rewrite Hsf, transpileCalls_pass, writes_pass.
  fold (emitResultOfPass optionsToExtend b s).
  unfold emitFilesEvents. rewrite List.filter_app.
  rewrite (filter_all _ (emitted <$> _)) by (apply Forall_fmap, Forall_true; done).
  assert (Hlen : List.length (emitResultOfPass optionsToExtend b s)
                 = length (emitted <$> emitResultOfPass optionsToExtend b s))
    by by rewrite length_fmap.
  rewrite Hlen, take_app_length, drop_app_length.
  split_and!; try done.
  intros e He. apply list_elem_of_In, filter_In in He as [He _].
  apply in_app_or in He as [He|He].
  - unfold confFallback in He. destruct (existsb isConf _); [done|].
    left. by destruct He.
  - right. destruct (firstEmission s); [|done]. by apply list_elem_of_In.
Qed.

(* ===================================================================== *)
(** * Diagnostics *)
(* ===================================================================== *)

(** C8. In every pass the diagnostics rendered are, in order, the sorted
    and de-duplicated merge of six lists: the errors of the parse of the
    configuration file the build names (the parse the cache holds for it,
    a fresh one when it holds none, and no diagnostics when the build
    names no configuration file), then the option, syntactic, global and
    semantic diagnostics of the program, then the diagnostics of the
    transpiler call of the pass. The one summary of the pass follows them
    and counts the entries of category Error of that list; the other
    entries are rendered all the same but count neither in the summary nor
    in the choice of the next mode. *)
Theorem diagnostics_reported_and_counted `{Externals}
    host optionsToExtend b s :
  let o := afterProgramCreate host optionsToExtend b s in
  let configDiagnostics :=
    match configFile (getCompilerOptions b),
          configFilePath (getCompilerOptions b) with
    | Some cf, Some cfPath =>
        if String.eqb cfPath EmptyString then []
        else errors (default (parseConfigFile cf cfPath optionsToExtend)
                             (configFileMap s !! cf))
    | _, _ => []
    end in
  let sourceFiles :=
    if fullRecompile s then None
    else Some (flat_map unitFiles (affectedPending b)) in
  let diagnostics :=
    sortAndDeduplicateDiagnostics
      (configDiagnostics
       ++ getOptionsDiagnostics (getProgram b)
       ++ getSyntacticDiagnostics (getProgram b)
       ++ getGlobalDiagnostics (getProgram b)
       ++ getSemanticDiagnostics (getProgram b)
       ++ (transpile (getProgram b) sourceFiles).1) in
  let errorCount := List.length (List.filter isError diagnostics) in
  reported (eventsOf o) = diagnostics
  ∧ summaries (eventsOf o) = [errorCount]
  ∧ (∃ before after,
       eventsOf o
       = before ++ (ReportDiagnostic (reportDiagnostic s) <$> diagnostics)
         ++ WatchErrorSummary (onWatchStatusChange host) errorCount :: after
       ∧ reported before = [] ∧ reported after = [])
  ∧ fullRecompile (stateOf o) = existsb isError diagnostics.
Proof.
  destruct (afterProgramCreate_run host optionsToExtend b s)
    as (s' & E & _ & Hfull & _).
  cbv zeta. rewrite E. simpl eventsOf. simpl stateOf.
  rewrite <-configDiagnosticsOfPass_eq.
  assert (Hsf : (if fullRecompile s then None
                 else Some (flat_map unitFiles (affectedPending b)))
                = sourceFilesOfPass b s).
  { unfold sourceFilesOfPass. by rewrite nextAffectedFiles_spec. }
  rewrite Hsf.
  fold (mergedDiagnostics optionsToExtend b s).
  rewrite reported_pass, summaries_pass, Hfull, some_error_counted.
  split_and!; try done.
  eexists (Transpile _ :: emitFilesEvents _ _ s), _.
  split; [reflexivity|].
  split.
  - unfold reported. simpl. by apply emitFilesEvents_omap; intros [].
  - unfold reported. by destruct (loveIsRunning s).
Qed.

Example demo_config_errors_counted :
  let cached := {| options := Demo.emptyOptions "/tmp/love-ts";
                   errors := [Demo.syntaxError] |} in
  let s := set_configFileMap {[ 7%positive := cached ]} (startOfProcess ∅) in
  let b :=
    {| getProgram := Demo.program [Demo.unusedWarning];
       getCompilerOptions :=
         {| outDir := "/tmp/love-ts"; project := None; sourceMapTraceback := None;
            pretty := None; configFile := Some 7%positive;
            configFilePath := Some "/home/dev/game/tsconfig.json" |};
       affectedPending := [] |} in
  let o := afterProgramCreate Demo.host Demo.options b s in
  reported (eventsOf o) = [Demo.unusedWarning; Demo.syntaxError]
  ∧ summaries (eventsOf o) = [1]
  ∧ fullRecompile (stateOf o) = true.
Proof. vm_compute. done. Qed.

(* ===================================================================== *)
(** * What happens once per session *)
(* ===================================================================== *)

Section Once.
Context `{Externals}.
Variable optionsToExtend : CompilerOptions.
Local Abbreviation host := (hostOf optionsToExtend).

Lemma files_pass b s :
  List.filter isFileEvent (passEvents host optionsToExtend b s)
  = emitFilesEvents (emitResultOfPass optionsToExtend b s)
      (optionsOfPass optionsToExtend b s) s.
Proof.
  unfold passEvents. rewrite !List.filter_app.
  rewrite reports_filter by done.
  rewrite (filter_all _ (emitFilesEvents _ _ _)) by apply emitFilesEvents_files.
  destruct (loveIsRunning s); simpl; by rewrite app_nil_r.
Qed.

(** Once LÖVE runs, no pass starts it again. *)
Lemma no_spawn_when_running builds s :
  loveIsRunning s = true →
  List.filter isSpawn
    (concat (eventsOf <$> passRuns (afterProgramCreate host optionsToExtend) builds s))
  = [].
Proof.
  revert s. induction builds as [|b rest IH]; intros s Hs; [done|].
  destruct (afterProgramCreate_run host optionsToExtend b s)
    as (s' & E & _ & _ & Hr & _).
  rewrite (passRuns_done _ _ _ _ _ _ _ E).
  rewrite List.filter_app, spawns_pass, Hs, IH; done.
Qed.

(** The guard of the library copy is closed after any pass, provided
    one of the two bundled files has content. *)
Lemma loaded_after_pass b s :
  bundled lumePath ≠ EmptyString ∨ bundled lurkerPath ≠ EmptyString →
  firstEmission (stateOf (afterProgramCreate host optionsToExtend b s)) = false.
Proof.
  intros Hb.
  destruct (afterProgramCreate_run host optionsToExtend b s)
    as (s' & -> & _ & _ & _ & _ & Hlume & Hlurker & _).
  simpl. unfold firstEmission in *. rewrite Hlume, Hlurker.
  destruct (falsy (lumeContent s) && falsy (lurkerContent s)) eqn:E; [|done].
  simpl. apply andb_false_iff.
  destruct Hb as [Hb|Hb]; [left|right]; by apply String.eqb_neq.
Qed.

Lemma no_read_when_loaded builds s :
  bundled lumePath ≠ EmptyString ∨ bundled lurkerPath ≠ EmptyString →
  firstEmission s = false →
  List.filter isReadFile
    (concat (eventsOf <$> passRuns (afterProgramCreate host optionsToExtend) builds s))
  = [].
Proof.
  intros Hb. revert s. induction builds as [|b rest IH]; intros s Hs; [done|].
  pose proof (loaded_after_pass b s Hb) as Hafter.
  destruct (afterProgramCreate_run host optionsToExtend b s) as (s' & E & _).
  rewrite (passRuns_done _ _ _ _ _ _ _ E). rewrite E in Hafter.
  rewrite List.filter_app, reads_pass, Hs, IH; done.
Qed.

End Once.

(** C3. In a process that runs one watch session, if the two bundled
    libraries are not both empty files, they are read and copied into the
    output directory once, in the first pass: the session reads each
    bundled file once; the first pass holds the copy (both reads, then both
    writes into the output directory); and the file operations of every
    later pass are the output files of that pass and the fallback
    [conf.lua], nothing else. What guards the copy is the pair of
    module-level variables [lumeContent] and [lurkerContent]. *)
Theorem runtime_support_copied_once `{Externals}
    configFileName optionsToExtend b rest disk :
  bundled lumePath ≠ EmptyString ∨ bundled lurkerPath ≠ EmptyString →
  let s := startOfProcess disk in
  let runs := sessionRuns optionsToExtend (b :: rest) s in
  let dir := outDir (optionsOfPass optionsToExtend b (sessionStart optionsToExtend s)) in
  List.filter isReadFile
    (eventsOf (createWatchOfConfigFile configFileName optionsToExtend (b :: rest) s))
  = [ReadFile lumePath; ReadFile lurkerPath]
  ∧ (∃ o before after,
       runs !! 0 = Some o
       ∧ eventsOf o = before ++ runtimeSupportCopy dir ++ after
       ∧ List.filter isReadFile before = []
       ∧ List.filter isReadFile after = []
       ∧ lumeContent (stateOf o) = Some (bundled lumePath)
       ∧ lurkerContent (stateOf o) = Some (bundled lurkerPath))
  ∧ (∀ n o' o b',
       runs !! n = Some o' → runs !! S n = Some o → (b :: rest) !! S n = Some b' →
       let outputFiles := emitResultOfPass optionsToExtend b' (stateOf o') in
       List.filter isFileEvent (eventsOf o)
       = (emitted <$> outputFiles)
         ++ confFallback outputFiles
              (outDir (optionsOfPass optionsToExtend b' (stateOf o')))).
Proof.
  intros Hb s runs dir.
  assert (Hfirst : firstEmission (sessionStart optionsToExtend s) = true) by done.
  pose proof (loaded_after_pass optionsToExtend b (sessionStart optionsToExtend s) Hb)
    as Hloaded.
  destruct (afterProgramCreate_run (hostOf optionsToExtend) optionsToExtend b
              (sessionStart optionsToExtend s))
    as (s1 & E1 & _ & _ & _ & _ & Hlume & Hlurker & _).
  split_and!.
  - rewrite session_events, sessionRuns_eq.
    rewrite (passRuns_done _ _ _ _ _ _ _ E1). rewrite E1 in Hloaded.
    rewrite List.filter_app, reads_pass, Hfirst.
    by rewrite no_read_when_loaded.
  - exists (afterProgramCreate (hostOf optionsToExtend) optionsToExtend b
              (sessionStart optionsToExtend s)).
    eexists (Transpile _ :: (emitted <$> _) ++ confFallback _ _), _.
    split; [apply sessionRuns_first|rewrite E1; simpl eventsOf; simpl stateOf].
    split; [|split; [|split]].
    + unfold passEvents, emitFilesEvents. rewrite Hfirst. simpl.
      rewrite <-!app_assoc. reflexivity.
    + simpl. rewrite List.filter_app.
      rewrite filter_none by (apply Forall_fmap, Forall_true; done).
      unfold confFallback. by destruct (existsb isConf _).
    + rewrite List.filter_app, reports_filter by done.
      by destruct (loveIsRunning (sessionStart optionsToExtend s)).
    + by rewrite Hlume, Hlurker, Hfirst.
  - intros n o' o b' Ho' Ho Hb'.
    destruct (sessionRuns_next _ _ _ _ _ _ Ho' Ho) as (b'' & Hb'' & ->).
    rewrite Hb' in Hb''. injection Hb'' as <-.
    assert (Hl : firstEmission (stateOf o') = false).
    { destruct (sessionRuns_pass _ _ _ _ _ Ho') as (b0 & s0 & _ & -> & _).
      by apply loaded_after_pass. }
    destruct (afterProgramCreate_run (hostOf optionsToExtend) optionsToExtend b'
                (stateOf o')) as (s' & -> & _).
    cbv zeta. simpl eventsOf. rewrite files_pass. unfold emitFilesEvents.
    rewrite Hl. by rewrite app_nil_r.
Qed.

Lemma runtime_support_copied_once_witness :
  (bundled lumePath ≠ EmptyString ∨ bundled lurkerPath ≠ EmptyString)
  ∧ List.filter isReadFile
      (eventsOf (createWatchOfConfigFile "tsconfig.json" Demo.options
                   Demo.session (startOfProcess ∅)))
    = [ReadFile lumePath; ReadFile lurkerPath].
Proof.
  assert (Hb : bundled lumePath ≠ EmptyString ∨ bundled lurkerPath ≠ EmptyString)
    by (left; vm_compute; discriminate).
  split; [exact Hb|].
  exact (proj1 (runtime_support_copied_once "tsconfig.json" Demo.options
                  (Demo.build []) (tail Demo.session) ∅ Hb)).
Defined.

(** Why the bundled files must not both be empty: an empty string is as
    falsy as [undefined], so with two empty library files the guard never
    closes and every pass copies them again. *)
Example empty_libraries_copied_again :
  List.filter isReadFile
    (eventsOf (@createWatchOfConfigFile Demo.emptyLibraries "tsconfig.json"
                 Demo.options [Demo.build []; Demo.build []] (startOfProcess ∅)))
  = [ ReadFile "/opt/love-ts/lib/lume.lua"; ReadFile "/opt/love-ts/lib/lurker.lua";
      ReadFile "/opt/love-ts/lib/lume.lua"; ReadFile "/opt/love-ts/lib/lurker.lua" ].
Proof. vm_compute. reflexivity. Qed.

(** C4. A session starts LÖVE once: the one [spawn] of the session is the
    last event of its first pass, after the emission of that pass; it runs
    [lovec] with the output directory as its only argument and the three
    standard streams of the host; no later pass spawns anything. *)
Theorem love_started_once `{Externals} configFileName optionsToExtend b rest s :
  let love := Spawn "lovec" [outDir optionsToExtend] [Stdin; Stdout; Stderr] in
  let runs := sessionRuns optionsToExtend (b :: rest) s in
  List.filter isSpawn
    (eventsOf (createWatchOfConfigFile configFileName optionsToExtend (b :: rest) s))
  = [love]
  ∧ (∃ o before,
       runs !! 0 = Some o
       ∧ eventsOf o = before ++ [love]
       ∧ List.filter isSpawn before = []
       ∧ List.filter isFileEvent before = List.filter isFileEvent (eventsOf o))
  ∧ (∀ n o, runs !! S n = Some o → List.filter isSpawn (eventsOf o) = []).
Proof.
  intros love runs.
  assert (Hstart : loveIsRunning (sessionStart optionsToExtend s) = false) by done.
  destruct (afterProgramCreate_run (hostOf optionsToExtend) optionsToExtend b
              (sessionStart optionsToExtend s))
    as (s1 & E1 & _ & _ & Hr & _).
  split_and!.
  - rewrite session_events, sessionRuns_eq.
    rewrite (passRuns_done _ _ _ _ _ _ _ E1).
    rewrite List.filter_app, spawns_pass, Hstart.
    by rewrite no_spawn_when_running.
  - exists (afterProgramCreate (hostOf optionsToExtend) optionsToExtend b
              (sessionStart optionsToExtend s)).
    eexists. split; [apply sessionRuns_first|]. rewrite E1. simpl eventsOf.
    assert (Hsplit : passEvents (hostOf optionsToExtend) optionsToExtend b
                       (sessionStart optionsToExtend s)
                     = (Transpile (sourceFilesOfPass b (sessionStart optionsToExtend s))
                        :: emitFilesEvents
                             (emitResultOfPass optionsToExtend b (sessionStart optionsToExtend s))
                             (optionsOfPass optionsToExtend b (sessionStart optionsToExtend s))
                             (sessionStart optionsToExtend s)
                        ++ (ReportDiagnostic (reportDiagnostic (sessionStart optionsToExtend s))
                            <$> sortAndDeduplicateDiagnostics
                                  (mergedDiagnostics optionsToExtend b
                                     (sessionStart optionsToExtend s)))
                        ++ [WatchErrorSummary (onWatchStatusChange (hostOf optionsToExtend))
                              (List.length (List.filter isError
                                 (sortAndDeduplicateDiagnostics
                                    (mergedDiagnostics optionsToExtend b
                                       (sessionStart optionsToExtend s)))))])
                       ++ [love]).
    { unfold passEvents. rewrite Hstart. simpl. by rewrite <-!app_assoc. }
    split; [exact Hsplit|]. split.
    + simpl. rewrite !List.filter_app.
      rewrite emitFilesEvents_filter, reports_filter; [done|done|by intros []].
    + rewrite Hsplit at 1. rewrite (List.filter_app _ _ [love]). simpl.
      by rewrite app_nil_r.
  - intros n o Ho.
    destruct (sessionRuns_before _ _ _ _ _ Ho) as [o' Ho'].
    destruct (sessionRuns_next _ _ _ _ _ _ Ho' Ho) as (b' & _ & ->).
    destruct (sessionRuns_after _ _ _ _ _ Ho') as [Hrun _].
    destruct (afterProgramCreate_run (hostOf optionsToExtend) optionsToExtend b'
                (stateOf o')) as (s' & -> & _).
    simpl eventsOf. by rewrite spawns_pass, Hrun.
Qed.

Example demo_spawns :
  List.filter isSpawn
    (eventsOf (createWatchOfConfigFile "tsconfig.json" Demo.options
                 Demo.session (startOfProcess ∅)))
  = [Spawn "lovec" ["/tmp/love-ts"] [Stdin; Stdout; Stderr]].
Proof. vm_compute. reflexivity. Qed.

(* ===================================================================== *)
(** * The end of the session *)
(* ===================================================================== *)

Section Close.
Context `{Externals}.
Variable optionsToExtend : CompilerOptions.
Local Abbreviation host := (hostOf optionsToExtend).

(** Once LÖVE runs, with the listener on its [close] event in place,
    further passes leave both as they are. *)
Lemma listener_kept builds s :
  loveIsRunning s = true →
  closeListener s = Some (outDir optionsToExtend) →
  closeListener (stateOf (forEach builds (afterProgramCreate host optionsToExtend) s))
  = Some (outDir optionsToExtend).
Proof.
  revert s. induction builds as [|b rest IH]; intros s Hrun Hlistener; [done|].
  destruct (afterProgramCreate_run host optionsToExtend b s)
    as (s' & E & _ & _ & Hrun' & _ & _ & _ & Hlistener').
  rewrite Hrun, Hlistener in Hlistener'.
  change (forEach (b :: rest) (afterProgramCreate host optionsToExtend) s)
    with ((afterProgramCreate host optionsToExtend b
           ;; forEach rest (afterProgramCreate host optionsToExtend)) s).
  rewrite (run_bind_done _ _ _ _ _ _ E).
  specialize (IH s' Hrun' Hlistener').
  by destruct (forEach rest _ s').
Qed.

(** After a session the listener holds the output directory the session
    was started with. *)
Lemma listener_after_session configFileName b rest s :
  closeListener (stateOf (createWatchOfConfigFile configFileName optionsToExtend
                            (b :: rest) s))
  = Some (outDir optionsToExtend).
Proof.
  unfold createWatchOfConfigFile, createWatchProgram. rewrite run_bind.
  change (updateWatchCompilationHost _ optionsToExtend s)
    with (Done (afterProgramCreate host optionsToExtend)
            (sessionStart optionsToExtend s) []).
  cbn beta iota.
  destruct (afterProgramCreate_run host optionsToExtend b
              (sessionStart optionsToExtend s))
    as (s' & E & _ & _ & Hrun' & _ & _ & _ & Hlistener').
  change (closeListener s' = Some (outDir optionsToExtend)) in Hlistener'.
  change (forEach (b :: rest) (afterProgramCreate host optionsToExtend)
            (sessionStart optionsToExtend s))
    with ((afterProgramCreate host optionsToExtend b
           ;; forEach rest (afterProgramCreate host optionsToExtend))
            (sessionStart optionsToExtend s)).
  rewrite (run_bind_done _ _ _ _ _ _ E).
  pose proof (listener_kept rest s' Hrun' Hlistener') as Hkept.
  by destruct (forEach rest _ s').
Qed.

End Close.

(** C5. What happens when LÖVE closes after a session, for any exit code
    of the child: the listener registered at the spawn runs; its first
    statement ends the host process with exit code 0, so the removal of
    the output directory written after it is never reached. The only event
    is the exit, and the disk (the output directory with it) is as the
    session left it. *)
Theorem close_listener_exits_before_cleanup `{Externals}
    configFileName optionsToExtend b rest s childExitCode :
  let s1 := stateOf (createWatchOfConfigFile configFileName optionsToExtend
                       (b :: rest) s) in
  closeListener s1 = Some (outDir optionsToExtend)
  ∧ childClosed childExitCode s1 = Exited 0 s1 [Exit 0%Z]
  ∧ (∀ dir, Rimraf dir ∉ eventsOf (childClosed childExitCode s1))
  ∧ files (stateOf (childClosed childExitCode s1)) = files s1.
Proof.
  intros s1.
  pose proof (listener_after_session optionsToExtend configFileName b rest s)
    as Hlistener.
  fold s1 in Hlistener.
  assert (Hclose : childClosed childExitCode s1 = Exited 0 s1 [Exit 0%Z]).
  { unfold childClosed. rewrite run_bind. unfold gets. cbn beta iota.
    by rewrite Hlistener. }
  rewrite Hclose. split_and!; try done.
  intros dir Hin. apply list_elem_of_singleton in Hin. discriminate.
Qed.

(** The same seen from the session: LÖVE closes after the demo session,
    the host exits with 0 and the output directory still holds its files. *)
Example demo_close_leaves_output (childExitCode : Z) :
  let s := stateOf (createWatchOfConfigFile "tsconfig.json" Demo.options
                      Demo.session (startOfProcess ∅)) in
  let o := childClosed childExitCode s in
  closeListener s = Some "/tmp/love-ts"
  ∧ eventsOf o = [Exit 0%Z]
  ∧ valueOf o = None
  ∧ files (stateOf o) !! "/tmp/love-ts/main.lua" = files s !! "/tmp/love-ts/main.lua"
  ∧ is_Some (files (stateOf o) !! "/tmp/love-ts/main.lua").
Proof. vm_compute. eauto 10. Qed.

(** Had the two statements been in the other order, the directory would be
    gone: [rimraf] itself removes everything below it. *)
Example rimraf_removes_output :
  let s := stateOf (createWatchOfConfigFile "tsconfig.json" Demo.options
                      Demo.session (startOfProcess ∅)) in
  files (stateOf (rimraf "/tmp/love-ts" s)) = ∅.
Proof. vm_compute. reflexivity. Qed.

(* ===================================================================== *)
(** * The renderer of diagnostics *)
(* ===================================================================== *)

(** [shouldBePretty] is the rule one expects: an explicit [pretty] option
    decides, and without it the terminal does. *)
Lemma shouldBePretty_spec `{Externals} (o : option CompilerOptions) :
  shouldBePretty o
  = match o ≫= pretty with
    | Some explicit => explicit
    | None => bool_decide (writeOutputIsTTY = Some true)
    end.
Proof.
  unfold shouldBePretty. destruct o as [o|]; simpl.
  - destruct (pretty o); [done|]. by destruct writeOutputIsTTY as [[]|].
  - by destruct writeOutputIsTTY as [[]|].
Qed.

(** The status reporter of a session follows that rule. *)
Lemma status_reporter_follows_option `{Externals} optionsToExtend :
  onWatchStatusChange (hostOf optionsToExtend)
  = createDiagnosticReporter (shouldBePretty (Some optionsToExtend)).
Proof. reflexivity. Qed.

Section Reporter.
Context `{Externals}.
Variable optionsToExtend : CompilerOptions.

Lemma reporters_of_runs builds s :
  Forall (λ r, r = reportDiagnostic s)
    (reporters
       (concat (eventsOf
                <$> passRuns (afterProgramCreate (hostOf optionsToExtend) optionsToExtend)
                      builds s))).
Proof.
  revert s. induction builds as [|b rest IH]; intros s; [constructor|].
  destruct (afterProgramCreate_run (hostOf optionsToExtend) optionsToExtend b s)
    as (s' & E & _ & _ & _ & Hd & _).
  rewrite (passRuns_done _ _ _ _ _ _ _ E).
  unfold reporters. rewrite omap_app. apply Forall_app. split.
  - fold (reporters (passEvents (hostOf optionsToExtend) optionsToExtend b s)).
    rewrite reporters_pass. apply Forall_fmap, Forall_true. done.
  - rewrite <-Hd. apply IH.
Qed.

End Reporter.

(** C9. What the code does: in a session started by
    [transpileExecuteAndWatch] in a fresh process every diagnostic is
    rendered by the plain reporter, whatever the [pretty] option and the
    terminal are. The module-level [reportDiagnostic] starts as the plain
    reporter and [updateReportDiagnostic], which would replace it by the
    one [shouldBePretty] selects, is never called. *)
Theorem diagnostics_rendered_plain `{Externals} configPath builds disk :
  Forall (λ r, r = createDiagnosticReporter false)
    (reporters (eventsOf (transpileExecuteAndWatch configPath builds
                            (startOfProcess disk)))).
Proof.
  unfold transpileExecuteAndWatch.
  destruct (findAndParseConfigFile configPath) as [configFileName parsed].
  rewrite session_events, sessionRuns_eq.
  apply (reporters_of_runs _ builds (sessionStart _ (startOfProcess disk))).
Qed.

(** With a terminal, and with [pretty] set as well, [shouldBePretty] holds
    and the status line is pretty, but the diagnostics of the session are
    rendered plain. *)
Example demo_pretty_ignored :
  let optionsToExtend :=
    {| outDir := "/tmp/love-ts"; project := None; sourceMapTraceback := None;
       pretty := Some true; configFile := None; configFilePath := None |} in
  let b :=
    {| getProgram := Demo.program [Demo.syntaxError];
       getCompilerOptions := optionsToExtend;
       affectedPending := [] |} in
  let evs := eventsOf (createWatchOfConfigFile "tsconfig.json" optionsToExtend [b]
                         (startOfProcess ∅)) in
  shouldBePretty (Some optionsToExtend) = true
  ∧ reporters evs = [createDiagnosticReporter false]
  ∧ reported evs = [Demo.syntaxError].
Proof. vm_compute. auto. Qed.

(** ** Occurrences of a block at the end of a text *)

Section Occurrences.

Lemma prefix_app (a b : string) : String.prefix a (a +:+ b) = true.
Proof.
  induction a as [|c a IH]; simpl; [by destruct b|].
  destruct (ascii_dec c c); [done|congruence].
Qed.

Lemma prefix_refl (a : string) : String.prefix a a = true.
Proof.
  induction a as [|c a IH]; simpl; [done|].
  destruct (ascii_dec c c); [done|congruence].
Qed.

Lemma append_cons c (a b : string) : String c a +:+ b = String c (a +:+ b).
Proof. reflexivity. Qed.

Lemma append_assoc (a b c : string) : (a +:+ b) +:+ c = a +:+ b +:+ c.
Proof. induction a as [|x a IH]; [done|]. by rewrite !append_cons, IH. Qed.

Lemma length_append (a b : string) :
  String.length (a +:+ b) = String.length a + String.length b.
Proof.
  induction a as [|x a IH]; [done|]. rewrite append_cons. simpl. by rewrite IH.
Qed.

Lemma prefix_longer p s :
  String.length s < String.length p → String.prefix p s = false.
Proof.
  revert s. induction p as [|a p IH]; intros [|b s] Hlen; simpl in *;
    try lia; try done.
  destruct (ascii_dec a b); [|done]. apply IH. lia.
Qed.

Lemma prefix_app_within p x y :
  (String.length p ≤ String.length x)%nat →
  String.prefix p (x +:+ y) = String.prefix p x.
Proof.
  revert x. induction p as [|a p IH]; intros [|b x] Hlen; simpl in Hlen;
    try lia.
  - by destruct y.
  - by rewrite append_cons.
  - rewrite append_cons. simpl.
    destruct (ascii_dec a b); [|done]. apply IH. lia.
Qed.

Lemma prefix_get p s i c :
  String.prefix p s = true → String.get i p = Some c → String.get i s = Some c.
Proof.
  revert s i. induction p as [|a p IH]; intros [|b s] i; simpl; try done.
  destruct (ascii_dec a b) as [->|]; [|done].
  destruct i as [|i]; [done|]. apply IH.
Qed.

Lemma get_lt s i : i < String.length s → is_Some (String.get i s).
Proof.
  revert i. induction s as [|a s IH]; intros i; simpl; [lia|].
  destruct i as [|i]; [eauto|]. intros ?. apply IH. lia.
Qed.

Lemma get_app_l x y i c :
  String.get i x = Some c → String.get i (x +:+ y) = Some c.
Proof.
  revert i. induction x as [|a x IH]; intros i; [done|].
  rewrite append_cons. simpl. destruct i as [|i]; [done|]. apply IH.
Qed.

Lemma get_app_r x y i :
  String.get (String.length x + i) (x +:+ y) = String.get i y.
Proof. induction x as [|a x IH]; [done|]. rewrite append_cons. apply IH. Qed.

Lemma hasBlankLine_get s i :
  String.get i s = Some "010"%char → String.get (S i) s = Some "010"%char →
  hasBlankLine s = true.
Proof.
  revert i. induction s as [|a s IH]; intros i; [done|].
  destruct s as [|b s]; [by destruct i|].
  destruct i as [|i].
  - simpl. intros [= ->] [= ->]. done.
  - intros H1 H2. change (hasBlankLine (String a (String b s)))
      with ((Ascii.eqb a "010" && Ascii.eqb b "010") || hasBlankLine (String b s)).
    rewrite (IH i H1 H2). apply orb_true_r.
Qed.

(** The block: it starts with a newline and has no blank line. *)
Variable block : string.
Hypothesis block_starts : String.get 0 block = Some "010"%char.
Hypothesis block_dense : hasBlankLine block = false.

Lemma block_not_empty : block ≠ EmptyString.
Proof. intros E. by rewrite E in block_starts. Qed.

(** A text that ends in a newline cannot end in the middle of an
    occurrence of the block that runs on into an appended block. *)
Lemma prefix_keep x :
  String.prefix block ((x +:+ nl) +:+ block) = String.prefix block (x +:+ nl).
Proof.
  destruct (decide (String.length block ≤ String.length (x +:+ nl))%nat) as [Hle|Hgt];
    [by apply prefix_app_within|].
  rewrite (prefix_longer block (x +:+ nl)) by lia.
  destruct (String.prefix block ((x +:+ nl) +:+ block)) eqn:E; [|done].
  rewrite length_append in Hgt. change (String.length nl) with 1 in Hgt.
  assert (H1 : String.get (String.length x) block = Some "010"%char).
  { destruct (get_lt block (String.length x)) as [c Hc]; [lia|].
    pose proof (prefix_get _ _ _ _ E Hc) as Hs.
    rewrite (get_app_l (x +:+ nl) block (String.length x) "010"%char) in Hs.
    - congruence.
    - replace (String.length x) with (String.length x + 0) by lia.
      by rewrite get_app_r. }
  assert (H2 : String.get (S (String.length x)) block = Some "010"%char).
  { destruct (get_lt block (S (String.length x))) as [c Hc]; [lia|].
    pose proof (prefix_get _ _ _ _ E Hc) as Hs.
    replace (S (String.length x)) with (String.length (x +:+ nl) + 0) in Hs
      by (rewrite length_append; change (String.length nl) with 1; lia).
    rewrite get_app_r in Hs. congruence. }
  pose proof (hasBlankLine_get _ _ H1 H2). congruence.
Qed.

Lemma occurrences_short s :
  String.length s < String.length block → occurrences block s = 0.
Proof.
  induction s as [|a s IH]; intros Hlen.
  - change (occurrences block EmptyString)
      with (if String.prefix block EmptyString then 1 else 0).
    by rewrite prefix_longer.
  - change (occurrences block (String a s))
      with ((if String.prefix block (String a s) then 1 else 0)
            + occurrences block s).
    rewrite prefix_longer by done. simpl in Hlen. rewrite IH; [done|lia].
Qed.

Lemma occurrences_self : occurrences block block = 1.
Proof.
  pose proof block_not_empty as Hne.
  pose proof (occurrences_short) as Hshort.
  destruct block as [|a rest] eqn:E; [done|].
  change (occurrences (String a rest) (String a rest))
    with ((if String.prefix (String a rest) (String a rest) then 1 else 0)
          + occurrences (String a rest) rest).
  rewrite prefix_refl, Hshort; [done|simpl; lia].
Qed.

(** Appending the block to a text that ends in a newline adds one
    occurrence of the block, no more. *)
Lemma occurrences_appended x :
  occurrences block (x +:+ nl +:+ block) = occurrences block (x +:+ nl) + 1.
Proof.
  rewrite <-append_assoc. induction x as [|a x IH].
  - change ((EmptyString +:+ nl) +:+ block) with (String "010" block).
    change (EmptyString +:+ nl) with (String "010" EmptyString).
    change (occurrences block (String "010" block))
      with ((if String.prefix block (String "010" block) then 1 else 0)
            + occurrences block block).
    change (occurrences block (String "010" EmptyString))
      with ((if String.prefix block (String "010" EmptyString) then 1 else 0)
            + occurrences block EmptyString).
    pose proof (prefix_keep EmptyString) as Hk.
    change ((EmptyString +:+ nl) +:+ block) with (String "010" block) in Hk.
    change (EmptyString +:+ nl) with (String "010" EmptyString) in Hk.
    rewrite Hk, occurrences_self.
    rewrite (occurrences_short EmptyString); [lia|].
    pose proof block_not_empty. destruct block; simpl; [done|lia].
  - change ((String a x +:+ nl) +:+ block) with (String a ((x +:+ nl) +:+ block)).
    change (String a x +:+ nl) with (String a (x +:+ nl)).
    change (occurrences block (String a ((x +:+ nl) +:+ block)))
      with ((if String.prefix block (String a ((x +:+ nl) +:+ block)) then 1 else 0)
            + occurrences block ((x +:+ nl) +:+ block)).
    change (occurrences block (String a (x +:+ nl)))
      with ((if String.prefix block (String a (x +:+ nl)) then 1 else 0)
            + occurrences block (x +:+ nl)).
    pose proof (prefix_keep (String a x)) as Hk.
    change ((String a x +:+ nl) +:+ block) with (String a ((x +:+ nl) +:+ block)) in Hk.
    change (String a x +:+ nl) with (String a (x +:+ nl)) in Hk.
    rewrite Hk, IH. lia.
Qed.

End Occurrences.

Lemma one_more_tail (userText : string) :
  occurrences luaMainTail (userText +:+ nl +:+ luaMainTail)
  = occurrences luaMainTail (userText +:+ nl) + 1.
Proof. by apply occurrences_appended. Qed.

(* ===================================================================== *)
(** * The files the emitter leaves *)
(* ===================================================================== *)

Section Disk.
Context `{Externals}.

Lemma lastWrite_app q a b :
  lastWrite q (a ++ b)
  = match lastWrite q b with Some d => Some d | None => lastWrite q a end.
Proof.
  induction a as [|e a IH]; simpl.
  - by destruct (lastWrite q b).
  - rewrite IH. by destruct (lastWrite q b).
Qed.

(** On the disk a path holds what was written to it last, and what it
    held before when nothing was written to it. *)
Lemma replay_lookup evs disk q :
  Forall (λ e, isFileEvent e = true) evs →
  replay evs disk !! q
  = match lastWrite q evs with Some d => Some d | None => disk !! q end.
Proof.
  intros Hevs. revert disk.
  induction Hevs as [|e evs He _ IH]; intros disk; [done|].
  change (replay (e :: evs) disk) with (replay evs (replay [e] disk)).
  rewrite IH. simpl. destruct (lastWrite q evs); [done|].
  destruct e; try done. simpl.
  destruct (String.eqb path q) eqn:E.
  - apply String.eqb_eq in E as ->. apply lookup_insert_eq.
  - apply String.eqb_neq in E. by apply lookup_insert_ne.
Qed.

Lemma lastWrite_none q evs :
  (∀ p d, WriteFile p d ∈ evs → p ≠ q) → lastWrite q evs = None.
Proof.
  induction evs as [|e evs IH]; intros Hq; [done|]. simpl.
  rewrite IH by (intros p d Hin; apply (Hq p d); by right).
  destruct e; try done.
  destruct (String.eqb path q) eqn:E; [|done].
  apply String.eqb_eq in E. destruct (Hq path data); [by left|done].
Qed.

Lemma lastWrite_emitted_none q (outputFiles : list OutputFile) :
  (∀ f, f ∈ outputFiles → name f ≠ q) →
  lastWrite q (emitted <$> outputFiles) = None.
Proof.
  intros Hq. apply lastWrite_none. intros p d Hin.
  apply list_elem_of_fmap in Hin as (f & [= -> ->] & Hf). by apply Hq.
Qed.

Lemma lastWrite_emitted_inv q (outputFiles : list OutputFile) :
  match lastWrite q (emitted <$> outputFiles) with
  | Some d => ∃ f, f ∈ outputFiles ∧ name f = q ∧ d = emittedText f
  | None => ∀ f, f ∈ outputFiles → name f ≠ q
  end.
Proof.
  induction outputFiles as [|g rest IH]; [by intros f Hf; inversion Hf|].
  change (emitted <$> g :: rest) with (emitted g :: (emitted <$> rest)).
  simpl. destruct (lastWrite q (emitted <$> rest)) as [d|].
  - destruct IH as (f & Hf & Hq & ->). exists f. split; [by right|done].
  - destruct (String.eqb (name g) q) eqn:E.
    + apply String.eqb_eq in E. exists g. split; [by left|done].
    + apply String.eqb_neq in E. intros f [->|Hf]%elem_of_cons; auto.
Qed.

Lemma lastWrite_emitted_some q (outputFiles : list OutputFile) f :
  f ∈ outputFiles → name f = q →
  ∃ f', f' ∈ outputFiles ∧ name f' = q
        ∧ lastWrite q (emitted <$> outputFiles) = Some (emittedText f').
Proof.
  intros Hf Hq. pose proof (lastWrite_emitted_inv q outputFiles) as Hinv.
  destruct (lastWrite q (emitted <$> outputFiles)) as [d|].
  - destruct Hinv as (f' & ? & ? & ->). eauto.
  - by destruct (Hinv f Hf).
Qed.

Lemma lastWrite_confFallback q outputFiles dir :
  Path.basename q ≠ "conf.lua" →
  lastWrite q (confFallback outputFiles dir) = None.
Proof.
  intros Hq. unfold confFallback. destruct (existsb isConf outputFiles); [done|].
  simpl. destruct (String.eqb _ q) eqn:E; [|done].
  apply String.eqb_eq in E. subst q. by rewrite PathFacts.join_conf in Hq.
Qed.

Lemma lastWrite_copy q dir :
  Path.basename q ≠ "lume.lua" → Path.basename q ≠ "lurker.lua" →
  lastWrite q (runtimeSupportCopy dir) = None.
Proof.
  intros Hlume Hlurker. simpl.
  destruct (String.eqb (Path.join dir "lurker.lua") q) eqn:E1.
  { apply String.eqb_eq in E1. subst q. by rewrite PathFacts.join_lurker in Hlurker. }
  destruct (String.eqb (Path.join dir "lume.lua") q) eqn:E2; [|done].
  apply String.eqb_eq in E2. subst q. by rewrite PathFacts.join_lume in Hlume.
Qed.

(** The file at [q] after an emission, when [q] is none of the two
    library names. *)
Lemma emitFiles_lookup outputFiles passOptions s q :
  Path.basename q ≠ "lume.lua" → Path.basename q ≠ "lurker.lua" →
  files (stateOf (emitFiles outputFiles passOptions s)) !! q
  = match lastWrite q (confFallback outputFiles (outDir passOptions)) with
    | Some d => Some d
    | None =>
        match lastWrite q (emitted <$> outputFiles) with
        | Some d => Some d
        | None => files s !! q
        end
    end.
Proof.
  intros Hlume Hlurker. rewrite emitFiles_run. simpl stateOf.
  assert (Hfiles : ∀ evs s0, files (set_files (replay evs) s0) = replay evs (files s0))
    by by intros ? [].
  rewrite Hfiles, replay_lookup by apply emitFilesEvents_files.
  unfold emitFilesEvents. rewrite !lastWrite_app.
  assert (lastWrite q (if firstEmission s
                       then runtimeSupportCopy (outDir passOptions) else [])
          = None) as ->.
  { destruct (firstEmission s); [by apply lastWrite_copy|done]. }
  destruct (lastWrite q (confFallback _ _)); [done|].
  destruct (lastWrite q (emitted <$> outputFiles)); [done|].
  by destruct (firstEmission s), s.
Qed.

Lemma emitFiles_events outputFiles passOptions s :
  eventsOf (emitFiles outputFiles passOptions s)
  = emitFilesEvents outputFiles passOptions s.
Proof. by rewrite emitFiles_run. Qed.

Lemma basename_eqb_neq p a b :
  Path.basename p = a → a ≠ b → String.eqb (Path.basename p) b = false.
Proof. intros -> Hab. by apply String.eqb_neq. Qed.

End Disk.

Section BootFile.
Context `{Externals}.

Lemma conf_path_not_library dir :
  Path.basename (Path.join dir "conf.lua") ≠ "lume.lua"
  ∧ Path.basename (Path.join dir "conf.lua") ≠ "lurker.lua".
Proof. by rewrite PathFacts.join_conf. Qed.

(** The boot file is in place after an emission whenever the output has
    no [conf.lua], or has one at the top of the output directory. *)
Lemma boot_file_when_conf_at_top outputFiles passOptions s :
  let q := Path.join (outDir passOptions) "conf.lua" in
  (existsb isConf outputFiles = true → ∃ f, f ∈ outputFiles ∧ name f = q) →
  ∃ content,
    files (stateOf (emitFiles outputFiles passOptions s)) !! q = Some content
    ∧ String.prefix luaConfHead content = true.
Proof.
  intros q Htop. destruct (conf_path_not_library (outDir passOptions)).
  rewrite emitFiles_lookup by done. unfold confFallback.
  destruct (existsb isConf outputFiles) eqn:E; simpl.
  - destruct (Htop eq_refl) as (f & Hf & Hq).
    destruct (lastWrite_emitted_some q outputFiles f Hf Hq)
      as (f' & _ & Hq' & ->).
    eexists. split; [done|]. unfold emittedText, isConf.
    rewrite Hq'. unfold q. rewrite PathFacts.join_conf, String.eqb_refl.
    apply prefix_app.
  - fold q. rewrite String.eqb_refl. eexists. split; [done|].
    apply prefix_refl.
Qed.

(** It is not touched when the only [conf.lua] files of the output are
    in other directories: they switch the fallback off. *)
Lemma boot_file_untouched_when_nested outputFiles passOptions s :
  let q := Path.join (outDir passOptions) "conf.lua" in
  existsb isConf outputFiles = true →
  (∀ f, f ∈ outputFiles → name f ≠ q) →
  files (stateOf (emitFiles outputFiles passOptions s)) !! q = files s !! q.
Proof.
  intros q Hconf Hnested. destruct (conf_path_not_library (outDir passOptions)).
  rewrite emitFiles_lookup by done. unfold confFallback. rewrite Hconf. simpl.
  by rewrite lastWrite_emitted_none.
Qed.

End BootFile.

(** C2. A pass whose only [conf.lua] lies in a subdirectory: the nested
    file gets the head block and switches the fallback off, so after the
    first pass of a process the output directory has no [conf.lua] of its
    own. *)
Theorem nested_conf_leaves_no_boot_file `{Externals} (userText : string) :
  let passOptions := Demo.emptyOptions "/tmp/love-ts" in
  let nested := {| name := "/tmp/love-ts/scenes/conf.lua"; text := userText |} in
  let o := emitFiles [nested] passOptions (startOfProcess ∅) in
  Path.join (outDir passOptions) "conf.lua" = "/tmp/love-ts/conf.lua"
  ∧ files (stateOf o) !! "/tmp/love-ts/conf.lua" = None
  ∧ eventsOf o
    = WriteFile "/tmp/love-ts/scenes/conf.lua" (luaConfHead +:+ nl +:+ userText)
      :: runtimeSupportCopy "/tmp/love-ts".
Proof.
  intros passOptions nested o. split; [done|]. split.
  - change "/tmp/love-ts/conf.lua" with (Path.join (outDir passOptions) "conf.lua").
    unfold o. rewrite boot_file_untouched_when_nested; [done|done|].
    intros f ->%list_elem_of_singleton. done.
  - unfold o. by rewrite emitFiles_events.
Qed.

(** The same through a whole session: a project whose only source file is
    [scenes/conf.ts]. After the first pass the nested file starts with the
    head block and the output directory has no [conf.lua] at its top. *)
Example demo_nested_conf_session :
  let b :=
    {| getProgram :=
         {| getSourceFiles := [ {| fileName := "scenes/conf.ts" |} ];
            getOptionsDiagnostics := []; getSyntacticDiagnostics := [];
            getGlobalDiagnostics := []; getSemanticDiagnostics := [] |};
       getCompilerOptions := Demo.options;
       affectedPending := [] |} in
  let disk :=
    files (stateOf (createWatchOfConfigFile "tsconfig.json" Demo.options [b]
                      (startOfProcess ∅))) in
  disk !! "/tmp/love-ts/conf.lua" = None
  ∧ disk !! "/tmp/love-ts/scenes/conf.lua"
    = Some (luaConfHead +:+ nl +:+ "-- from scenes/conf.ts").
Proof. vm_compute. auto. Qed.

(** In the demo session no source file is a [conf.ts]: every pass writes
    the head block alone. *)
Example demo_boot_file :
  files (stateOf (createWatchOfConfigFile "tsconfig.json" Demo.options
                    Demo.session (startOfProcess ∅)))
    !! "/tmp/love-ts/conf.lua"
  = Some luaConfHead.
Proof. vm_compute. reflexivity. Qed.

(* ===================================================================== *)
(** * The entry point *)
(* ===================================================================== *)

(** C6. An output file named [main.lua] is written as its transpiled text,
    a newline and one tail block. What the disk then holds at its path is
    the text of this pass with one tail block, whatever the disk held
    before: emitting again, after any earlier emission, gives the same
    content, so the tail block never piles up. The tail block occurs in the
    written content once more than in the transpiled text it was appended
    to, hence once when the transpiled text does not hold the block
    itself. *)
Theorem main_written_with_one_tail `{Externals} outputFiles passOptions s f :
  f ∈ outputFiles →
  Path.basename (name f) = "main.lua" →
  let o := emitFiles outputFiles passOptions s in
  WriteFile (name f) (text f +:+ nl +:+ luaMainTail) ∈ eventsOf o
  ∧ (∃ f', f' ∈ outputFiles ∧ name f' = name f
           ∧ files (stateOf o) !! name f = Some (text f' +:+ nl +:+ luaMainTail))
  ∧ (∀ earlierFiles earlierOptions,
       let s1 := stateOf (emitFiles earlierFiles earlierOptions s) in
       files (stateOf (emitFiles outputFiles passOptions s1)) !! name f
       = files (stateOf o) !! name f)
  ∧ (∀ userText,
       occurrences luaMainTail (userText +:+ nl +:+ luaMainTail)
       = occurrences luaMainTail (userText +:+ nl) + 1).
Proof.
  intros Hf Hmain o.
  assert (Hnc : Path.basename (name f) ≠ "conf.lua") by by rewrite Hmain.
  assert (Hnl : Path.basename (name f) ≠ "lume.lua") by by rewrite Hmain.
  assert (Hnk : Path.basename (name f) ≠ "lurker.lua") by by rewrite Hmain.
  assert (Htext : ∀ g, name g = name f →
                       emittedText g = text g +:+ nl +:+ luaMainTail).
  { intros g Hg. unfold emittedText, isConf, isMain. by rewrite Hg, Hmain. }
  destruct (lastWrite_emitted_some (name f) outputFiles f Hf eq_refl)
    as (f' & Hf' & Hq' & Hlast).
  assert (Hlookup : ∀ s0, files (stateOf (emitFiles outputFiles passOptions s0)) !! name f
                          = Some (text f' +:+ nl +:+ luaMainTail)).
  { intros s0. rewrite emitFiles_lookup by done.
    rewrite lastWrite_confFallback by done. by rewrite Hlast, Htext. }
  split_and!.
  - unfold o. rewrite emitFiles_events. unfold emitFilesEvents.
    apply elem_of_app. left. apply list_elem_of_fmap. exists f.
    split; [|done]. unfold emitted. by rewrite Htext.
  - exists f'. unfold o. by rewrite Hlookup.
  - intros. unfold o. by rewrite !Hlookup.
  - apply one_more_tail.
Qed.

Lemma main_written_with_one_tail_witness :
  let f := {| name := "/tmp/love-ts/main.lua"; text := "love.draw = nil" |} in
  let o := emitFiles [f] Demo.options (startOfProcess ∅) in
  (f ∈ [f]) ∧ Path.basename (name f) = "main.lua"
  ∧ WriteFile (name f) (text f +:+ nl +:+ luaMainTail) ∈ eventsOf o.
Proof.
  intros f o.
  assert (Hf : f ∈ [f]) by apply list_elem_of_here.
  assert (Hb : Path.basename (name f) = "main.lua") by reflexivity.
  split; [exact Hf|]. split; [exact Hb|].
  exact (proj1 (main_written_with_one_tail [f] Demo.options (startOfProcess ∅) f Hf Hb)).
Defined.

(** C10. When no output file of a pass has the base name [main.lua], the
    emitter writes the output files verbatim (with the head block for a
    [conf.lua]), the fallback [conf.lua] and on the first emission the two
    libraries: nothing is written to a path named [main.lua], no tail block
    is added, and every path named [main.lua] holds what it held before, so
    a missing [main.lua] stays missing. The [switch] looks at the base name
    only: a [conf.lua] or [main.lua] in any subdirectory gets the block. *)
Theorem no_main_no_tail `{Externals} outputFiles passOptions s :
  (∀ f, f ∈ outputFiles → Path.basename (name f) ≠ "main.lua") →
  let o := emitFiles outputFiles passOptions s in
  eventsOf o
  = ((λ f, WriteFile (name f)
             (if isConf f then luaConfHead +:+ nl +:+ text f else text f))
     <$> outputFiles)
    ++ confFallback outputFiles (outDir passOptions)
    ++ (if firstEmission s then runtimeSupportCopy (outDir passOptions) else [])
  ∧ (∀ p d, WriteFile p d ∈ eventsOf o → Path.basename p ≠ "main.lua")
  ∧ (∀ p, Path.basename p = "main.lua" → files (stateOf o) !! p = files s !! p)
  ∧ (∀ dir sub userText others s0,
       let nestedMain :=
         {| name := Path.join (Path.join dir sub) "main.lua"; text := userText |} in
       let nestedConf :=
         {| name := Path.join (Path.join dir sub) "conf.lua"; text := userText |} in
       WriteFile (name nestedMain) (userText +:+ nl +:+ luaMainTail)
         ∈ eventsOf (emitFiles (nestedMain :: others) passOptions s0)
       ∧ WriteFile (name nestedConf) (luaConfHead +:+ nl +:+ userText)
         ∈ eventsOf (emitFiles (nestedConf :: others) passOptions s0)).
Proof.
  intros Hnomain o.
  assert (Hevents : eventsOf o
    = ((λ f, WriteFile (name f)
               (if isConf f then luaConfHead +:+ nl +:+ text f else text f))
       <$> outputFiles)
      ++ confFallback outputFiles (outDir passOptions)
      ++ (if firstEmission s then runtimeSupportCopy (outDir passOptions) else [])).
  { unfold o. rewrite emitFiles_events. unfold emitFilesEvents. f_equal.
    apply list_fmap_ext. intros i f Hi. unfold emitted, emittedText.
    assert (isMain f = false) as ->; [|done].
    apply String.eqb_neq, Hnomain. by eapply list_elem_of_lookup_2. }
  assert (Hwrites : ∀ p d, WriteFile p d ∈ eventsOf o → Path.basename p ≠ "main.lua").
  { intros p d. rewrite Hevents, !elem_of_app.
    intros [Hin|[Hin|Hin]].
    - apply list_elem_of_fmap in Hin as (f & [= -> _] & Hf). by apply Hnomain.
    - unfold confFallback in Hin. destruct (existsb isConf outputFiles); [by inversion Hin|].
      apply list_elem_of_singleton in Hin. injection Hin as -> _.
      by rewrite PathFacts.join_conf.
    - destruct (firstEmission s); [|by inversion Hin].
      unfold runtimeSupportCopy in Hin.
      repeat (apply elem_of_cons in Hin as [Hin|Hin]; [try done|]);
        [| |by inversion Hin].
      + injection Hin as -> _. by rewrite PathFacts.join_lume.
      + injection Hin as -> _. by rewrite PathFacts.join_lurker. }
  split_and!; [done|done| |].
  - intros p Hp. unfold o. rewrite emitFiles_lookup by by rewrite Hp.
    rewrite lastWrite_confFallback by by rewrite Hp.
    rewrite lastWrite_emitted_none; [done|].
    intros f Hf Heq. apply (Hnomain f Hf). by rewrite Heq.
  - intros dir sub userText others s0 nestedMain nestedConf.
    rewrite !emitFiles_events. unfold emitFilesEvents.
    split; apply elem_of_app; left; apply list_elem_of_fmap.
    + exists nestedMain. split; [|by left].
      unfold emitted, emittedText, isConf, isMain. simpl.
      by rewrite PathFacts.basename_join.
    + exists nestedConf. split; [|by left].
      unfold emitted, emittedText, isConf. simpl.
      by rewrite PathFacts.basename_join.
Qed.

Lemma no_main_no_tail_witness :
  let outputFiles := [ {| name := "/tmp/love-ts/util.lua"; text := "return {}" |} ] in
  let o := emitFiles outputFiles Demo.options (startOfProcess ∅) in
  (∀ f, f ∈ outputFiles → Path.basename (name f) ≠ "main.lua")
  ∧ files (stateOf o) !! "/tmp/love-ts/main.lua" = None.
Proof.
  intros outputFiles o.
  assert (Hno : ∀ f, f ∈ outputFiles → Path.basename (name f) ≠ "main.lua").
  { intros f Hf. apply list_elem_of_singleton in Hf. subst f. vm_compute. discriminate. }
  split; [exact Hno|].
  exact (proj1 (proj2 (proj2 (no_main_no_tail outputFiles Demo.options
                                (startOfProcess ∅) Hno)))
           "/tmp/love-ts/main.lua" eq_refl).
Defined.

(** An incremental pass that re-emits [util.ts] alone, on an empty output
    directory: [conf.lua] is made up, [main.lua] is not. *)
Example demo_no_main_fallback :
  let s := set_fullRecompile false (startOfProcess ∅) in
  let disk :=
    files (stateOf (afterProgramCreate Demo.host Demo.options (Demo.build []) s)) in
  disk !! "/tmp/love-ts/conf.lua" = Some luaConfHead
  ∧ disk !! "/tmp/love-ts/util.lua" = Some "-- from util.ts"
  ∧ disk !! "/tmp/love-ts/main.lua" = None.
Proof. vm_compute. auto. Qed.

(* ===================================================================== *)
(** * More on the emitter *)
(* ===================================================================== *)

Section EmitterMore.
Context `{Externals}.

(** Every write of an emission goes to the path of an output file or to
    one of three paths in the output directory. *)
Lemma emitFilesEvents_writes outputFiles passOptions s p d :
  WriteFile p d ∈ emitFilesEvents outputFiles passOptions s →
  (∃ f, f ∈ outputFiles ∧ p = name f)
  ∨ p = Path.join (outDir passOptions) "conf.lua"
  ∨ p = Path.join (outDir passOptions) "lume.lua"
  ∨ p = Path.join (outDir passOptions) "lurker.lua".
Proof.
  unfold emitFilesEvents. rewrite !elem_of_app. intros [Hin|[Hin|Hin]].
  - apply list_elem_of_fmap in Hin as (f & [= -> _] & Hf). eauto.
  - unfold confFallback in Hin.
    destruct (existsb isConf outputFiles); [by inversion Hin|].
    apply list_elem_of_singleton in Hin. injection Hin as -> _. auto.
  - destruct (firstEmission s); [|by inversion Hin].
    unfold runtimeSupportCopy in Hin.
    repeat (apply elem_of_cons in Hin as [Hin|Hin]; [try done|]);
      [| |by inversion Hin].
    + injection Hin as -> _. auto.
    + injection Hin as -> _. auto.
Qed.

Lemma files_after_emitFiles outputFiles passOptions s q :
  files (stateOf (emitFiles outputFiles passOptions s)) !! q
  = match lastWrite q (emitFilesEvents outputFiles passOptions s) with
    | Some d => Some d
    | None => files s !! q
    end.
Proof.
  rewrite emitFiles_run. simpl stateOf.
  assert (Hfiles : ∀ evs s0, files (set_files (replay evs) s0) = replay evs (files s0))
    by by intros ? [].
  rewrite Hfiles, replay_lookup by apply emitFilesEvents_files.
  destruct (lastWrite q _); [done|]. by destruct (firstEmission s), s.
Qed.

Lemma same_name_same_file (outputFiles : list OutputFile) f g :
  NoDup (name <$> outputFiles) →
  f ∈ outputFiles → g ∈ outputFiles → name f = name g → f = g.
Proof.
  induction outputFiles as [|x rest IH]; intros Hnd Hf Hg Hname;
    [by inversion Hf|].
  change (name <$> x :: rest) with (name x :: (name <$> rest)) in Hnd.
  apply NoDup_cons in Hnd as [Hx Hnd].
  apply elem_of_cons in Hf as [->|Hf]; apply elem_of_cons in Hg as [->|Hg];
    try done.
  - destruct Hx. rewrite Hname. by apply list_elem_of_fmap_2.
  - destruct Hx. rewrite <-Hname. by apply list_elem_of_fmap_2.
  - by apply IH.
Qed.

(** The last write to [q] among the two library copies and the fallback,
    when [q] is none of their paths. *)
Lemma lastWrite_copy_other q dir :
  Path.join dir "lume.lua" ≠ q → Path.join dir "lurker.lua" ≠ q →
  lastWrite q (runtimeSupportCopy dir) = None.
Proof.
  intros Hlume Hlurker. apply lastWrite_none. intros p d Hin.
  unfold runtimeSupportCopy in Hin.
  repeat (apply elem_of_cons in Hin as [Hin|Hin]; [try done|]);
    [| |by inversion Hin].
  - by injection Hin as -> _.
  - by injection Hin as -> _.
Qed.

Lemma lastWrite_confFallback_other q outputFiles dir :
  (existsb isConf outputFiles = false → Path.join dir "conf.lua" ≠ q) →
  lastWrite q (confFallback outputFiles dir) = None.
Proof.
  intros Hq. unfold confFallback.
  destruct (existsb isConf outputFiles) eqn:E; [done|].
  apply lastWrite_none. intros p d Hin.
  apply list_elem_of_singleton in Hin. injection Hin as -> _. by apply Hq.
Qed.

(** An absolute path resolves without the working directory. *)
Lemma resolve_absolute cwd cwd' p :
  Path.resolve cwd (String "/" p) = Path.resolve cwd' (String "/" p).
Proof. reflexivity. Qed.

End EmitterMore.

Example resolve_spellings :
  Path.resolve "/home/dev/game" "/tmp/love-ts/assets/../assets/hero.png"
  = Path.resolve "/home/dev/game" "/tmp/love-ts/assets/hero.png"
  ∧ Path.resolve "/home/dev/game" "/tmp/love-ts/./util.lua"
    = "/tmp/love-ts/util.lua"
  ∧ Path.resolve "/home/dev/game" "/tmp/love-ts//lib/"
    = "/tmp/love-ts/lib".
Proof. vm_compute. done. Qed.

Example resolve_relative :
  Path.resolve "/home/dev/game" "build/../build/main.lua"
  = "/home/dev/game/build/main.lua"
  ∧ Path.resolve "/home/dev/game" "../main.lua" = "/home/dev/main.lua"
  ∧ Path.resolve "/home/dev/game" EmptyString = "/home/dev/game"
  ∧ Path.resolve "/home/dev/game" "/.." = "/".
Proof. vm_compute. done. Qed.

(** X1. An emission leaves alone every file that is none of its own: a
    path that stands for another file than each output file and than
    [conf.lua], [lume.lua] and [lurker.lua] at the top of the output
    directory holds after it what it held before (or is still missing).
    Paths are compared as files, by what they resolve to in the working
    directory [cwd] of the process, not by their spelling. *)
Theorem emission_touches_only_its_paths `{Externals}
    cwd outputFiles passOptions s q :
  (∀ f, f ∈ outputFiles → Path.resolve cwd (name f) ≠ Path.resolve cwd q) →
  Path.resolve cwd (Path.join (outDir passOptions) "conf.lua")
    ≠ Path.resolve cwd q →
  Path.resolve cwd (Path.join (outDir passOptions) "lume.lua")
    ≠ Path.resolve cwd q →
  Path.resolve cwd (Path.join (outDir passOptions) "lurker.lua")
    ≠ Path.resolve cwd q →
  files (stateOf (emitFiles outputFiles passOptions s)) !! q = files s !! q.
Proof.
  intros Hout Hconf Hlume Hlurker. rewrite files_after_emitFiles.
  rewrite lastWrite_none; [done|].
  intros p d Hin ->.
  apply emitFilesEvents_writes in Hin as [(f & Hf & ->)|[->|[->| ->]]]; try done.
  by apply (Hout f).
Qed.

Lemma emission_touches_only_its_paths_witness :
  let outputFiles :=
    [ {| name := "/tmp/love-ts/assets/../util.lua"; text := "return {}" |} ] in
  let s := set_files <["/tmp/love-ts/assets/hero.png" := "PNG"]> (startOfProcess ∅) in
  files (stateOf (emitFiles outputFiles Demo.options s)) !! "/tmp/love-ts/assets/hero.png"
  = Some "PNG".
Proof.
  intros outputFiles s.
  rewrite (emission_touches_only_its_paths "/home/dev/game" outputFiles
             Demo.options s "/tmp/love-ts/assets/hero.png").
  - vm_compute. reflexivity.
  - intros f Hf. apply list_elem_of_singleton in Hf. subst f. vm_compute. discriminate.
  - vm_compute. discriminate.
  - vm_compute. discriminate.
  - vm_compute. discriminate.
Defined.

(** X3. When no output file of an emission is named [conf.lua], the
    [conf.lua] at the top of the output directory holds the head block and
    nothing else afterwards, whatever it held before: a [conf.lua] that an
    earlier pass wrote with the user's text is replaced. *)
Theorem fallback_replaces_conf `{Externals} outputFiles passOptions s :
  existsb isConf outputFiles = false →
  files (stateOf (emitFiles outputFiles passOptions s))
    !! Path.join (outDir passOptions) "conf.lua"
  = Some luaConfHead.
Proof.
  intros Hnone.
  destruct (conf_path_not_library (outDir passOptions)).
  rewrite emitFiles_lookup by done.
  unfold confFallback. rewrite Hnone. simpl. by rewrite String.eqb_refl.
Qed.

Lemma fallback_replaces_conf_witness :
  let conf := {| name := "/tmp/love-ts/conf.lua"; text := "love.conf = nil" |} in
  let util := {| name := "/tmp/love-ts/util.lua"; text := "return {}" |} in
  let s1 := stateOf (emitFiles [conf; util] Demo.options (startOfProcess ∅)) in
  files s1 !! "/tmp/love-ts/conf.lua" = Some (luaConfHead +:+ nl +:+ "love.conf = nil")
  ∧ existsb isConf [util] = false
  ∧ files (stateOf (emitFiles [util] Demo.options s1)) !! "/tmp/love-ts/conf.lua"
    = Some luaConfHead.
Proof.
  intros conf util s1.
  assert (Hnone : existsb isConf [util] = false) by reflexivity.
  split; [vm_compute; reflexivity|]. split; [exact Hnone|].
  exact (fallback_replaces_conf [util] Demo.options s1 Hnone).
Defined.

(** X4. After an emission an output file is on disk at its own path: with
    the head block before its text when its base name is [conf.lua], with
    the tail block after it when its base name is [main.lua], and verbatim
    otherwise. This holds for an output file that is the only one written
    to its file and whose file is none of those the emitter writes on its
    own account: the two libraries at the top of the output directory, and
    the [conf.lua] there when no output file has that base name. Paths are
    compared as files, by what they resolve to in the working directory
    [cwd] of the process: two spellings of one file are one file. *)
Theorem output_file_on_disk `{Externals} cwd outputFiles passOptions s f :
  f ∈ outputFiles →
  (∀ g, g ∈ outputFiles →
        Path.resolve cwd (name g) = Path.resolve cwd (name f) → g = f) →
  (existsb isConf outputFiles = false →
   Path.resolve cwd (Path.join (outDir passOptions) "conf.lua")
     ≠ Path.resolve cwd (name f)) →
  Path.resolve cwd (Path.join (outDir passOptions) "lume.lua")
    ≠ Path.resolve cwd (name f) →
  Path.resolve cwd (Path.join (outDir passOptions) "lurker.lua")
    ≠ Path.resolve cwd (name f) →
  files (stateOf (emitFiles outputFiles passOptions s)) !! name f
  = Some (if String.eqb (Path.basename (name f)) "conf.lua"
          then luaConfHead +:+ nl +:+ text f
          else if String.eqb (Path.basename (name f)) "main.lua"
               then text f +:+ nl +:+ luaMainTail
               else text f).
Proof.
  intros Hf Honly Hconf Hlume Hlurker.
  rewrite files_after_emitFiles. unfold emitFilesEvents. rewrite !lastWrite_app.
  assert (lastWrite (name f)
            (if firstEmission s
             then runtimeSupportCopy (outDir passOptions) else []) = None) as ->.
  { destruct (firstEmission s); [|done].
    apply lastWrite_copy_other; intros Heq.
    - apply Hlume. by rewrite Heq.
    - apply Hlurker. by rewrite Heq. }
  rewrite lastWrite_confFallback_other
    by (intros Hnone Heq; apply (Hconf Hnone); by rewrite Heq).
  destruct (lastWrite_emitted_some (name f) outputFiles f Hf eq_refl)
    as (f' & Hf' & Hname & Hlast).
  assert (f' = f) as -> by (apply Honly; [done|by rewrite Hname]).
  by rewrite Hlast.
Qed.

Lemma output_file_on_disk_witness :
  let util := {| name := "/tmp/love-ts/lib/../lib/util.lua"; text := "return {}" |} in
  let conf := {| name := "/tmp/love-ts/conf.lua"; text := "love.conf = nil" |} in
  files (stateOf (emitFiles [conf; util] Demo.options (startOfProcess ∅)))
    !! "/tmp/love-ts/lib/../lib/util.lua"
  = Some "return {}".
Proof.
  intros util conf.
  apply (output_file_on_disk "/home/dev/game" [conf; util] Demo.options
           (startOfProcess ∅) util).
  - apply list_elem_of_further, list_elem_of_here.
  - intros g Hg Hsame.
    apply elem_of_cons in Hg as [->|Hg];
      [vm_compute in Hsame; discriminate Hsame|].
    by apply list_elem_of_singleton in Hg.
  - intros Hnone. vm_compute in Hnone. discriminate Hnone.
  - vm_compute. discriminate.
  - vm_compute. discriminate.
Defined.

(** Two output files that spell one file differently: the later write is
    what the file holds, so neither is the only one written to its file. *)
Example two_spellings_one_file :
  let first := {| name := "/tmp/love-ts/util.lua"; text := "return 1" |} in
  let second := {| name := "/tmp/love-ts/./util.lua"; text := "return 2" |} in
  name first ≠ name second
  ∧ Path.resolve "/home/dev/game" (name first)
    = Path.resolve "/home/dev/game" (name second)
  ∧ emitted <$> [first; second]
    = [ WriteFile "/tmp/love-ts/util.lua" "return 1";
        WriteFile "/tmp/love-ts/./util.lua" "return 2" ].
Proof. vm_compute. split; [discriminate|done]. Qed.

(** X5. The first emission of a process leaves the two bundled libraries
    at the top of the output directory, also when the pass has output
    files of those very paths: the copy is written last. *)
Theorem first_emission_installs_libraries `{Externals} outputFiles passOptions s :
  firstEmission s = true →
  let disk := files (stateOf (emitFiles outputFiles passOptions s)) in
  disk !! Path.join (outDir passOptions) "lume.lua" = Some (bundled lumePath)
  ∧ disk !! Path.join (outDir passOptions) "lurker.lua" = Some (bundled lurkerPath).
Proof.
  intros Hfirst disk. unfold disk. rewrite !files_after_emitFiles.
  unfold emitFilesEvents. rewrite Hfirst, !lastWrite_app.
  assert (Hne : Path.join (outDir passOptions) "lurker.lua"
                ≠ Path.join (outDir passOptions) "lume.lua").
  { intros E. apply (f_equal Path.basename) in E.
    by rewrite PathFacts.join_lurker, PathFacts.join_lume in E. }
  split; simpl.
  - rewrite (proj2 (String.eqb_neq _ _) Hne). by rewrite String.eqb_refl.
  - by rewrite String.eqb_refl.
Qed.

Lemma first_emission_installs_libraries_witness :
  let mine := {| name := "/tmp/love-ts/lume.lua"; text := "-- my own lume" |} in
  firstEmission (startOfProcess ∅) = true
  ∧ files (stateOf (emitFiles [mine] Demo.options (startOfProcess ∅)))
      !! "/tmp/love-ts/lume.lua"
    = Some "-- bundled lume.lua".
Proof.
  intros mine.
  assert (Hfirst : firstEmission (startOfProcess ∅) = true) by reflexivity.
  split; [exact Hfirst|].
  exact (proj1 (first_emission_installs_libraries [mine] Demo.options
                  (startOfProcess ∅) Hfirst)).
Defined.

(** X20. After an emission the output directory has its boot file
    whenever the output files hold no [conf.lua] at all, or hold one at the
    top of the output directory: [conf.lua] there starts with the head
    block. *)
Theorem boot_file_in_place `{Externals} outputFiles passOptions s :
  (existsb isConf outputFiles = true →
   ∃ f, f ∈ outputFiles ∧ name f = Path.join (outDir passOptions) "conf.lua") →
  ∃ content,
    files (stateOf (emitFiles outputFiles passOptions s))
      !! Path.join (outDir passOptions) "conf.lua" = Some content
    ∧ String.prefix luaConfHead content = true.
Proof.
  intros Htop.
  destruct (conf_path_not_library (outDir passOptions)).
  destruct (existsb isConf outputFiles) eqn:E.
  - destruct (Htop eq_refl) as (f & Hf & Hq).
    rewrite emitFiles_lookup by done. unfold confFallback. rewrite E. simpl.
    destruct (lastWrite_emitted_some _ outputFiles f Hf Hq) as (f' & _ & Hq' & ->).
    eexists. split; [done|]. unfold emittedText, isConf.
    rewrite Hq', PathFacts.join_conf, String.eqb_refl. apply prefix_app.
  - rewrite fallback_replaces_conf by done. eexists. split; [done|].
    apply prefix_refl.
Qed.

Lemma boot_file_in_place_witness :
  let conf := {| name := "/tmp/love-ts/conf.lua"; text := "love.conf = nil" |} in
  ∃ content,
    files (stateOf (emitFiles [conf] Demo.options (startOfProcess ∅)))
      !! "/tmp/love-ts/conf.lua" = Some content
    ∧ String.prefix luaConfHead content = true.
Proof.
  intros conf.
  apply (boot_file_in_place [conf] Demo.options (startOfProcess ∅)).
  intros _. exists conf. split; [apply list_elem_of_here|reflexivity].
Defined.

(* ===================================================================== *)
(** * More on passes and sessions *)
(* ===================================================================== *)

Section SessionMore.
Context `{Externals}.
Variable optionsToExtend : CompilerOptions.
Local Abbreviation host := (hostOf optionsToExtend).

Lemma session_state configFileName builds s :
  stateOf (createWatchOfConfigFile configFileName optionsToExtend builds s)
  = stateOf (forEach builds (afterProgramCreate host optionsToExtend)
               (sessionStart optionsToExtend s)).
Proof.
  unfold createWatchOfConfigFile, createWatchProgram. rewrite run_bind.
  change (updateWatchCompilationHost _ optionsToExtend s)
    with (Done (afterProgramCreate host optionsToExtend)
            (sessionStart optionsToExtend s) []).
  cbn beta iota. by destruct (forEach builds _ _).
Qed.

Lemma forEach_pass b rest s s' evs :
  afterProgramCreate host optionsToExtend b s = Done tt s' evs →
  stateOf (forEach (b :: rest) (afterProgramCreate host optionsToExtend) s)
  = stateOf (forEach rest (afterProgramCreate host optionsToExtend) s')
  ∧ valueOf (forEach (b :: rest) (afterProgramCreate host optionsToExtend) s)
    = valueOf (forEach rest (afterProgramCreate host optionsToExtend) s').
Proof.
  intros E.
  change (forEach (b :: rest) (afterProgramCreate host optionsToExtend) s)
    with ((afterProgramCreate host optionsToExtend b
           ;; forEach rest (afterProgramCreate host optionsToExtend)) s).
  rewrite (run_bind_done _ _ _ _ _ _ E).
  by destruct (forEach rest _ s').
Qed.

(** What every pass keeps, the passes of a session keep. *)
Lemma passes_preserve (P : State → Prop) builds s :
  (∀ b s0, P s0 → P (stateOf (afterProgramCreate host optionsToExtend b s0))) →
  P s →
  P (stateOf (forEach builds (afterProgramCreate host optionsToExtend) s)).
Proof.
  intros Hpass. revert s. induction builds as [|b rest IH]; intros s Hs; [done|].
  destruct (afterProgramCreate_run host optionsToExtend b s) as (s' & E & _).
  rewrite (proj1 (forEach_pass b rest s s' _ E)). apply IH.
  specialize (Hpass b s Hs). by rewrite E in Hpass.
Qed.

Lemma passes_complete builds s :
  valueOf (forEach builds (afterProgramCreate host optionsToExtend) s) = Some tt
  ∧ List.length (passRuns (afterProgramCreate host optionsToExtend) builds s)
    = List.length builds.
Proof.
  revert s. induction builds as [|b rest IH]; intros s; [done|].
  destruct (afterProgramCreate_run host optionsToExtend b s) as (s' & E & _).
  rewrite (proj2 (forEach_pass b rest s s' _ E)).
  destruct (IH s') as [Hv Hl]. split; [done|].
  simpl. rewrite E. simpl. by rewrite Hl.
Qed.

Lemma pass_keeps_files b s q :
  is_Some (files s !! q) →
  is_Some (files (stateOf (afterProgramCreate host optionsToExtend b s)) !! q).
Proof.
  intros Hq.
  destruct (afterProgramCreate_run host optionsToExtend b s) as (s' & -> & Hfiles & _).
  simpl. rewrite Hfiles, replay_passEvents.
  rewrite replay_lookup by apply emitFilesEvents_files.
  by destruct (lastWrite q _).
Qed.

(** The events of a pass by kind. *)
Lemma passEvents_kinds b s e :
  e ∈ passEvents host optionsToExtend b s →
  match e with
  | Transpile _ | WriteFile _ _ | ReadFile _ | ReportDiagnostic _ _ => True
  | WatchErrorSummary r _ => r = onWatchStatusChange host
  | Spawn _ _ _ => e = lovec optionsToExtend
  | Exit _ | Rimraf _ => False
  end.
Proof.
  unfold passEvents. rewrite !elem_of_app.
  intros [Hin|[Hin|[Hin|[Hin|Hin]]]].
  - apply list_elem_of_singleton in Hin. by subst e.
  - pose proof (emitFilesEvents_files (emitResultOfPass optionsToExtend b s)
                  (optionsOfPass optionsToExtend b s) s) as Hall.
    rewrite Forall_forall in Hall. specialize (Hall e Hin). by destruct e.
  - apply list_elem_of_fmap in Hin as (d & -> & _). done.
  - apply list_elem_of_singleton in Hin. by subst e.
  - destruct (loveIsRunning s); [by inversion Hin|].
    apply list_elem_of_singleton in Hin. by subst e.
Qed.

Lemma runs_kinds builds s e :
  e ∈ concat (eventsOf <$> passRuns (afterProgramCreate host optionsToExtend) builds s) →
  ∃ b s0, e ∈ passEvents host optionsToExtend b s0.
Proof.
  revert s. induction builds as [|b rest IH]; intros s; [by inversion 1|].
  destruct (afterProgramCreate_run host optionsToExtend b s) as (s' & E & _).
  rewrite (passRuns_done _ _ _ _ _ _ _ E). rewrite elem_of_app.
  intros [Hin|Hin]; eauto.
Qed.

Lemma summaries_of_runs builds s :
  List.length
    (summaries (concat (eventsOf
                        <$> passRuns (afterProgramCreate host optionsToExtend) builds s)))
  = List.length builds.
Proof.
  revert s. induction builds as [|b rest IH]; intros s; [done|].
  destruct (afterProgramCreate_run host optionsToExtend b s) as (s' & E & _).
  rewrite (passRuns_done _ _ _ _ _ _ _ E).
  unfold summaries. rewrite omap_app.
  fold (summaries (passEvents host optionsToExtend b s)).
  rewrite summaries_pass, length_app. simpl. f_equal. apply IH.
Qed.

End SessionMore.

(** X2. A session never removes a file: every path that holds a file when
    the session starts still holds one after all its passes. *)
Theorem session_keeps_files `{Externals} configFileName optionsToExtend builds s q :
  is_Some (files s !! q) →
  is_Some (files (stateOf (createWatchOfConfigFile configFileName optionsToExtend
                             builds s)) !! q).
Proof.
  intros Hq. rewrite session_state.
  apply (passes_preserve optionsToExtend (λ s0, is_Some (files s0 !! q))).
  - intros b s0. apply pass_keeps_files.
  - done.
Qed.

Lemma session_keeps_files_witness :
  let s := set_files <["/tmp/love-ts/assets/hero.png" := "PNG"]> (startOfProcess ∅) in
  is_Some (files (stateOf (createWatchOfConfigFile "tsconfig.json" Demo.options
                             Demo.session s)) !! "/tmp/love-ts/assets/hero.png").
Proof.
  intros s.
  apply (session_keeps_files "tsconfig.json" Demo.options Demo.session s).
  vm_compute. eauto.
Defined.

(** X6. No pass ends the host or removes anything: a session runs one
    pass for each build and returns, and none of its events is an exit or a
    removal of a directory. The host ends only through the [close] listener
    of the child. *)
Theorem session_runs_every_pass `{Externals} configFileName optionsToExtend builds s :
  let o := createWatchOfConfigFile configFileName optionsToExtend builds s in
  valueOf o = Some tt
  ∧ List.length (sessionRuns optionsToExtend builds s) = List.length builds
  ∧ ∀ e, e ∈ eventsOf o →
         match e with Exit _ | Rimraf _ => False | _ => True end.
Proof.
  intros o.
  destruct (passes_complete optionsToExtend builds (sessionStart optionsToExtend s))
    as [Hv Hl].
  split_and!.
  - unfold o, createWatchOfConfigFile, createWatchProgram. rewrite run_bind.
    change (updateWatchCompilationHost _ optionsToExtend s)
      with (Done (afterProgramCreate (hostOf optionsToExtend) optionsToExtend)
              (sessionStart optionsToExtend s) []).
    cbn beta iota.
    by destruct (forEach builds _ _).
  - by rewrite sessionRuns_eq.
  - intros e He. unfold o in He. rewrite session_events, sessionRuns_eq in He.
    apply runs_kinds in He as (b & s0 & He).
    apply passEvents_kinds in He. by destruct e.
Qed.

(** X7. Every pass of a session ends in one summary, and every summary is
    rendered by the reporter the session chose at its start from
    [optionsToExtend]: pretty when the [pretty] option is set to true, and
    when it is not set and the output is a terminal. *)
Theorem one_summary_per_pass `{Externals} configFileName optionsToExtend builds s :
  let evs := eventsOf (createWatchOfConfigFile configFileName optionsToExtend
                         builds s) in
  List.length (summaries evs) = List.length builds
  ∧ ∀ r n, WatchErrorSummary r n ∈ evs →
           reporterIsPretty r
           = match pretty optionsToExtend with
             | Some explicit => explicit
             | None => bool_decide (writeOutputIsTTY = Some true)
             end.
Proof.
  intros evs. unfold evs. rewrite session_events, sessionRuns_eq. split.
  - apply summaries_of_runs.
  - intros r n Hin. apply runs_kinds in Hin as (b & s0 & Hin).
    apply passEvents_kinds in Hin. subst r.
    rewrite status_reporter_follows_option. cbn [reporterIsPretty].
    by rewrite shouldBePretty_spec.
Qed.

(** X8. Within a pass the call of the transpiler comes first, then all
    file operations, and only then the diagnostics, the summary and the
    start of LÖVE: nothing is reported or started before the pass has
    written its files. *)
Theorem pass_emits_before_reporting `{Externals} host optionsToExtend b s :
  let evs := eventsOf (afterProgramCreate host optionsToExtend b s) in
  ∃ sourceFiles emission reporting,
    evs = Transpile sourceFiles :: emission ++ reporting
    ∧ Forall (λ e, isFileEvent e = true) emission
    ∧ Forall (λ e, isFileEvent e = false) reporting
    ∧ List.filter isFileEvent evs = emission.
Proof.
  intros evs. unfold evs.
  destruct (afterProgramCreate_run host optionsToExtend b s) as (s' & -> & _).
  simpl eventsOf.
  exists (sourceFilesOfPass b s),
    (emitFilesEvents (emitResultOfPass optionsToExtend b s)
       (optionsOfPass optionsToExtend b s) s),
    ((ReportDiagnostic (reportDiagnostic s)
      <$> sortAndDeduplicateDiagnostics (mergedDiagnostics optionsToExtend b s))
     ++ [WatchErrorSummary (onWatchStatusChange host)
           (List.length (List.filter isError
              (sortAndDeduplicateDiagnostics (mergedDiagnostics optionsToExtend b s))))]
     ++ (if loveIsRunning s then [] else [lovec optionsToExtend])).
  assert (Hrep : Forall (λ e, isFileEvent e = false)
            ((ReportDiagnostic (reportDiagnostic s)
              <$> sortAndDeduplicateDiagnostics (mergedDiagnostics optionsToExtend b s))
             ++ [WatchErrorSummary (onWatchStatusChange host)
                   (List.length (List.filter isError
                      (sortAndDeduplicateDiagnostics
                         (mergedDiagnostics optionsToExtend b s))))]
             ++ (if loveIsRunning s then [] else [lovec optionsToExtend]))).
  { rewrite !Forall_app. split_and!.
    - apply Forall_fmap, Forall_true. done.
    - by repeat constructor.
    - destruct (loveIsRunning s); by repeat constructor. }
  split_and!; [done|apply emitFilesEvents_files|done|].
  unfold passEvents.
  change ([Transpile (sourceFilesOfPass b s)] ++ ?l) with (Transpile (sourceFilesOfPass b s) :: l).
  simpl List.filter. rewrite List.filter_app.
  rewrite (filter_all _ (emitFilesEvents _ _ _)) by apply emitFilesEvents_files.
  rewrite filter_none by exact Hrep. by rewrite app_nil_r.
Qed.

(* ===================================================================== *)
(** * The cache of parsed configuration files, and the mode once more *)
(* ===================================================================== *)

Section ConfigMore.
Context `{Externals}.

(** After lines 113-134 nothing in a pass touches the cache. *)
Lemma afterProgramCreate_cache host optionsToExtend b s :
  configFileMap (stateOf (afterProgramCreate host optionsToExtend b s))
  = configFileMap
      (stateOf (configFileParsingDiagnostics optionsToExtend
                  (getCompilerOptions b) s)).
Proof.
  destruct (configFileParsingDiagnostics_run optionsToExtend b s) as [cache Hcfg].
  unfold afterProgramCreate.
  rewrite (run_bind_done _ _ _ _ _ _ Hcfg), Hcfg.
  rewrite run_bind. unfold gets at 1. cbn beta iota.
  rewrite run_bind. unfold emit at 1. cbn beta iota.
  destruct (transpile (getProgram b) _) as [ed tfs].
  rewrite run_bind, emitFiles_run.
  rewrite run_bind. unfold gets at 1. cbn beta iota.
  rewrite run_bind, forEach_emit.
  rewrite run_bind. unfold modify at 1. cbn beta iota.
  rewrite run_bind. unfold emit at 1. cbn beta iota.
  rewrite run_bind. unfold gets at 1. cbn beta iota.
  destruct s as [disk lume lurker r fr cm lr cl].
  unfold firstEmission. simpl.
  destruct (falsy lume && falsy lurker), lr; simpl;
    unfold mbind, M_bind, mret, M_ret, modify, spawn, emit; simpl; done.
Qed.

(** Lines 113-134 when the options of the build name a configuration
    file: the entry used is the cached one, or the fresh parse when the
    identity is new, and it is in the cache afterwards. *)
Lemma configFileParsingDiagnostics_entry optionsToExtend builderOptions s cf cfPath :
  configFile builderOptions = Some cf →
  configFilePath builderOptions = Some cfPath →
  cfPath ≠ EmptyString →
  let entry := default (parseConfigFile cf cfPath optionsToExtend)
                       (configFileMap s !! cf) in
  configFileParsingDiagnostics optionsToExtend builderOptions s
  = Done (Object_assign builderOptions (options entry), errors entry)
         (set_configFileMap (<[cf := entry]> (configFileMap s)) s) [].
Proof.
  intros Hcf Hpath Hne entry. unfold configFileParsingDiagnostics.
  rewrite Hcf, Hpath. apply String.eqb_neq in Hne. rewrite Hne.
  destruct s as [disk lume lurker r fr cm lr cl].
  unfold mbind, M_bind, mret, M_ret, gets, modify. simpl in *.
  destruct (cm !! cf) as [cached|] eqn:E; simpl.
  - rewrite E. unfold entry. simpl. by rewrite insert_id.
  - rewrite lookup_insert_eq. done.
Qed.

End ConfigMore.

(** X9. The cache of parsed configuration files only grows during a pass:
    an identity that has an entry keeps that very entry. *)
Theorem config_cache_keeps_entries `{Externals} host optionsToExtend b s cf parsed :
  configFileMap s !! cf = Some parsed →
  configFileMap (stateOf (afterProgramCreate host optionsToExtend b s)) !! cf
  = Some parsed.
Proof.
  intros Hcached. rewrite afterProgramCreate_cache.
  destruct (configFile (getCompilerOptions b)) as [cf'|] eqn:Hcf;
    [destruct (configFilePath (getCompilerOptions b)) as [p|] eqn:Hp;
     [destruct (decide (p = EmptyString)) as [->|Hne]|]|].
  - unfold configFileParsingDiagnostics. by rewrite Hcf, Hp.
  - rewrite (configFileParsingDiagnostics_entry _ _ _ cf' p) by done.
    destruct s as [disk lume lurker r fr cm lr cl]. simpl in *.
    destruct (decide (cf' = cf)) as [->|Hother].
    + rewrite Hcached. simpl. apply lookup_insert_eq.
    + by rewrite lookup_insert_ne.
  - unfold configFileParsingDiagnostics. by rewrite Hcf, Hp.
  - unfold configFileParsingDiagnostics. by rewrite Hcf.
Qed.

Lemma config_cache_keeps_entries_witness :
  let parsed := {| options := Demo.emptyOptions "/elsewhere"; errors := [Demo.syntaxError] |} in
  let s := set_configFileMap {[ 7%positive := parsed ]} (startOfProcess ∅) in
  configFileMap (stateOf (afterProgramCreate Demo.host Demo.options (Demo.build []) s))
    !! 7%positive
  = Some parsed.
Proof.
  intros parsed s.
  apply (config_cache_keeps_entries Demo.host Demo.options (Demo.build []) s).
  vm_compute. reflexivity.
Defined.

(** X10. A pass whose build names a configuration file (an identity and a
    non-empty path) works with the cached parse of that identity, and
    parses only when the identity is new: the diagnostics it reports start
    from the errors of that entry, it emits with the options of the build
    overlaid by those of the entry, and the entry is in the cache
    afterwards. *)
Theorem pass_uses_cached_config `{Externals} host optionsToExtend b s cf cfPath :
  configFile (getCompilerOptions b) = Some cf →
  configFilePath (getCompilerOptions b) = Some cfPath →
  cfPath ≠ EmptyString →
  let entry := default (parseConfigFile cf cfPath optionsToExtend)
                       (configFileMap s !! cf) in
  let o := afterProgramCreate host optionsToExtend b s in
  let passOptions := Object_assign (getCompilerOptions b) (options entry) in
  configFileMap (stateOf o) = <[cf := entry]> (configFileMap s)
  ∧ reported (eventsOf o)
    = sortAndDeduplicateDiagnostics
        (errors entry
         ++ getOptionsDiagnostics (getProgram b)
         ++ getSyntacticDiagnostics (getProgram b)
         ++ getGlobalDiagnostics (getProgram b)
         ++ getSemanticDiagnostics (getProgram b)
         ++ (transpile (getProgram b) (sourceFilesOfPass b s)).1)
  ∧ outDir passOptions = outDir (options entry)
  ∧ take (List.length (emitTranspiledFiles passOptions
                         (transpile (getProgram b) (sourceFilesOfPass b s)).2))
         (List.filter isWriteFile (eventsOf o))
    = emitted <$> emitTranspiledFiles passOptions
                    (transpile (getProgram b) (sourceFilesOfPass b s)).2.
Proof.
  intros Hcf Hpath Hne entry o passOptions.
  pose proof (configFileParsingDiagnostics_entry optionsToExtend
                (getCompilerOptions b) s cf cfPath Hcf Hpath Hne) as Hrun.
  fold entry in Hrun.
  assert (Hopt : optionsOfPass optionsToExtend b s = passOptions)
    by (unfold optionsOfPass; by rewrite Hrun).
  assert (Hdiag : configDiagnosticsOfPass optionsToExtend b s = errors entry)
    by (unfold configDiagnosticsOfPass; by rewrite Hrun).
  split_and!.
  - unfold o. rewrite afterProgramCreate_cache, Hrun. by destruct s.
  - unfold o.
    destruct (afterProgramCreate_run host optionsToExtend b s) as (s' & -> & _).
    simpl eventsOf. rewrite reported_pass. unfold mergedDiagnostics.
    by rewrite Hdiag.
  - done.
  - unfold o.
    destruct (afterProgramCreate_run host optionsToExtend b s) as (s' & -> & _).
    simpl eventsOf. rewrite writes_pass. unfold emitResultOfPass. rewrite Hopt.
    unfold emitFilesEvents. rewrite List.filter_app.
    rewrite (filter_all _ (emitted <$> _)) by (apply Forall_fmap, Forall_true; done).
    set (outs := emitTranspiledFiles passOptions _).
    replace (List.length outs) with (length (emitted <$> outs))
      by by rewrite length_fmap.
    by rewrite take_app_length.
Qed.

Lemma pass_uses_cached_config_witness :
  let stale := {| options := Demo.emptyOptions "/elsewhere"; errors := [Demo.syntaxError] |} in
  let s := set_configFileMap {[ 7%positive := stale ]} (startOfProcess ∅) in
  let b :=
    {| getProgram := Demo.program [];
       getCompilerOptions :=
         {| outDir := "/tmp/love-ts"; project := None; sourceMapTraceback := None;
            pretty := None; configFile := Some 7%positive;
            configFilePath := Some "/home/dev/game/tsconfig.json" |};
       affectedPending := [] |} in
  reported (eventsOf (afterProgramCreate Demo.host Demo.options b s))
  = [Demo.syntaxError].
Proof.
  intros stale s b.
  pose proof (pass_uses_cached_config Demo.host Demo.options b s 7%positive
                "/home/dev/game/tsconfig.json" eq_refl eq_refl) as Huse.
  assert (Hne : "/home/dev/game/tsconfig.json" ≠ EmptyString) by discriminate.
  destruct (Huse Hne) as (_ & Hrep & _).
  rewrite Hrep. vm_compute. reflexivity.
Defined.

(** X11. In full mode a pass does not look at the affected units of the
    builder: two builds that differ only in what is pending give the same
    pass, event for event and state for state. *)
Theorem full_pass_ignores_pending `{Externals} host optionsToExtend b pending s :
  fullRecompile s = true →
  afterProgramCreate host optionsToExtend
    {| getProgram := getProgram b;
       getCompilerOptions := getCompilerOptions b;
       affectedPending := pending |} s
  = afterProgramCreate host optionsToExtend b s.
Proof.
  intros Hfull.
  destruct (configFileParsingDiagnostics_run optionsToExtend b s) as [cache Hcfg].
  unfold afterProgramCreate. cbn [getProgram getCompilerOptions affectedPending].
  rewrite !(run_bind_done _ _ _ _ _ _ Hcfg).
  assert (Hgets : ∀ (f : bool → M unit) s0,
            (gets fullRecompile ≫= f) s0
            = match f (fullRecompile s0) s0 with
              | Done v s2 e2 => Done v s2 e2
              | Exited c s2 e2 => Exited c s2 e2
              end) by reflexivity.
  rewrite !Hgets.
  assert (fullRecompile (set_configFileMap cache s) = true) as ->
    by by destruct s.
  reflexivity.
Qed.

Lemma full_pass_ignores_pending_witness :
  fullRecompile (sessionStart Demo.options (startOfProcess ∅)) = true
  ∧ afterProgramCreate Demo.host Demo.options
      {| getProgram := getProgram (Demo.build []);
         getCompilerOptions := getCompilerOptions (Demo.build []);
         affectedPending := [] |}
      (sessionStart Demo.options (startOfProcess ∅))
    = afterProgramCreate Demo.host Demo.options (Demo.build [])
        (sessionStart Demo.options (startOfProcess ∅)).
Proof.
  assert (Hfull : fullRecompile (sessionStart Demo.options (startOfProcess ∅)) = true)
    by reflexivity.
  split; [exact Hfull|].
  exact (full_pass_ignores_pending Demo.host Demo.options (Demo.build []) []
           (sessionStart Demo.options (startOfProcess ∅)) Hfull).
Defined.

(** X12. [transpileExecuteAndWatch] runs the session on the temporary
    directory, whatever output directory the parsed configuration names:
    LÖVE is started once, on the directory [setupTemporaryDirectory]
    returned, and that directory is the one the [close] listener holds. *)
Theorem watch_runs_on_temporary_directory `{Externals} configPath b rest s :
  let o := transpileExecuteAndWatch configPath (b :: rest) s in
  List.filter isSpawn (eventsOf o)
  = [Spawn "lovec" [setupTemporaryDirectory] [Stdin; Stdout; Stderr]]
  ∧ closeListener (stateOf o) = Some setupTemporaryDirectory.
Proof.
  intros o. unfold o, transpileExecuteAndWatch.
  destruct (findAndParseConfigFile configPath) as [configFileName parsed].
  set (optionsToExtend := {| outDir := setupTemporaryDirectory |}).
  split.
  - rewrite session_events, sessionRuns_eq.
    destruct (afterProgramCreate_run (hostOf optionsToExtend) optionsToExtend b
                (sessionStart optionsToExtend s))
      as (s1 & E1 & _ & _ & Hr & _).
    rewrite (passRuns_done _ _ _ _ _ _ _ E1).
    rewrite List.filter_app, spawns_pass.
    assert (loveIsRunning (sessionStart optionsToExtend s) = false) as -> by done.
    by rewrite no_spawn_when_running.
  - apply (listener_after_session optionsToExtend).
Qed.

(* ===================================================================== *)
(** * The command line *)
(* ===================================================================== *)

Section CliFacts.
Context `{CliExternals}.

Lemma main_eq argv :
  main argv
  = runClauses (clausesFrom (enteredAt (argv !! 2)) caseLabels)
      (argv !! 2) (drop 3 argv).
Proof. reflexivity. Qed.

(** Where a command enters the [switch]. *)
Lemma enteredAt_cases (c : string) :
  (c ∈ workingCommands ∧ enteredAt (Some c) ≠ CaseDefault
     ∧ enteredAt (Some c) ≠ CaseDashH ∧ enteredAt (Some c) ≠ CaseDashDashHelp
     ∧ enteredAt (Some c) ≠ CaseHelp ∧ enteredAt (Some c) ≠ CaseUndefined)
  ∨ (c ∈ helpFlags
     ∧ enteredAt (Some c) ∈ [CaseDashH; CaseDashDashHelp; CaseHelp])
  ∨ ((c ∉ workingCommands) ∧ (c ∉ helpFlags) ∧ enteredAt (Some c) = CaseDefault).
Proof.
  unfold enteredAt, workingCommands, helpFlags.
  repeat match goal with
         | |- context [String.eqb c ?k] =>
             destruct (String.eqb_spec c k) as [->|?]
         end;
    try solve
      [left; split;
       [repeat first [apply list_elem_of_here | apply list_elem_of_further]
       |done]];
    try solve
      [right; left; split;
       repeat first [apply list_elem_of_here | apply list_elem_of_further]].
  right. right. split_and!; [| |done].
  - intros Hin. repeat (apply elem_of_cons in Hin as [->|Hin]; [done|]).
    by inversion Hin.
  - intros Hin. repeat (apply elem_of_cons in Hin as [->|Hin]; [done|]).
    by inversion Hin.
Qed.

(** Once the [error] listener has run, the [close] listener is silent. *)
Lemma addListeners_after_error options events :
  List.filter isConsoleLog (addListeners true options events) = [].
Proof.
  induction events as [|[err|] rest IH]; simpl; [done|apply IH|apply IH].
Qed.

Lemma addOnClose_length options :
  List.length (addOnClose false options)
  = 3 * List.length (List.filter notFlag options).
Proof.
  unfold addOnClose. simpl negb. cbv iota.
  induction options as [|o rest IH]; [done|].
  simpl flat_map. simpl List.filter.
  destruct (notFlag o); [|exact IH].
  rewrite length_app, IH. simpl. lia.
Qed.

(** The run of the [switch] from each label, fall-through included. *)
Lemma run_from label command options :
  runClauses (clausesFrom label caseLabels) command options
  = match label with
    | CaseUndefined =>
        if existsSync "tsconfig.json"
        then [ TranspileAndExecute (getFullConfigFilePath ".") ]
        else [ ConsoleError "Could not find tsconfig.json in current directory.";
               ConsoleError ("Unknown command " +:+ dq +:+ commandText command
                             +:+ dq +:+ ".");
               ConsoleLog help ]
    | CaseDefault =>
        [ ConsoleError ("Unknown command " +:+ dq +:+ commandText command
                        +:+ dq +:+ ".");
          ConsoleLog help ]
    | CaseDashH | CaseDashDashHelp | CaseHelp => [ ConsoleLog help ]
    | _ => (clause label command options).1
    end.
Proof.
  destruct label; try reflexivity.
  change (clausesFrom CaseUndefined caseLabels)
    with [CaseUndefined; CaseDefault; CaseDashH; CaseDashDashHelp; CaseHelp].
  cbn -[help String.append]. by destruct (existsSync "tsconfig.json").
Qed.

End CliFacts.

Ltac list_cases H :=
  repeat (apply elem_of_cons in H as [H|H]);
  try (by apply elem_of_nil in H); try discriminate H.

(** X13. The help text is printed exactly when the command is not one of
    the nine working commands ([-h], [--help], [help] and every unknown
    word print it), or when there is no command and the current directory
    has no [tsconfig.json]. *)
Theorem help_printed_iff `{CliExternals} argv :
  ConsoleLog help ∈ main argv ↔
  match argv !! 2 with
  | Some c => c ∉ workingCommands
  | None => existsSync "tsconfig.json" = false
  end.
Proof.
  rewrite main_eq, run_from. destruct (argv !! 2) as [c|].
  - destruct (enteredAt_cases c)
      as [(Hw & Hlabel)|[(Hh & Hlabel)|(Hw & Hh & Hlabel)]].
    + split; [|done]. intros Hin. exfalso.
      destruct (enteredAt (Some c));
        try (by destruct Hlabel as (?&?&?&?&?));
        cbn [clause fst] in Hin; apply list_elem_of_singleton in Hin;
        discriminate Hin.
    + split.
      * intros _ Hw. unfold helpFlags in Hh. unfold workingCommands in Hw.
        list_cases Hh; subst c; list_cases Hw.
      * intros _.
        destruct (enteredAt (Some c)); try (list_cases Hlabel);
          apply list_elem_of_here.
    + rewrite Hlabel. split; [done|]. intros _.
      apply list_elem_of_further, list_elem_of_here.
  - unfold enteredAt. destruct (existsSync "tsconfig.json").
    + split; [|done]. intros Hin. apply list_elem_of_singleton in Hin.
      discriminate Hin.
    + split; [done|]. intros _. do 2 apply list_elem_of_further.
      apply list_elem_of_here.
Qed.

(** X14. A command that is no working command and no help flag gets two
    lines: the error that names it as given, then the help text; the
    options after it play no part. *)
Theorem unknown_command_reported `{CliExternals} node script c options :
  c ∉ workingCommands → c ∉ helpFlags →
  main (node :: script :: c :: options)
  = [ ConsoleError ("Unknown command " +:+ dq +:+ c +:+ dq +:+ ".");
      ConsoleLog help ].
Proof.
  intros Hw Hh. rewrite main_eq. cbn [lookup list_lookup drop].
  destruct (enteredAt_cases c) as [(? & _)|[(? & _)|(_ & _ & ->)]]; done.
Qed.

Lemma unknown_command_reported_witness :
  ("wacth" ∉ workingCommands) ∧ ("wacth" ∉ helpFlags)
  ∧ @main (DemoCli.externals true) ["node"; "love-ts"; "wacth"; "game"]
    = [ ConsoleError ("Unknown command " +:+ dq +:+ "wacth" +:+ dq +:+ ".");
        ConsoleLog help ].
Proof.
  assert (Hw : "wacth" ∉ workingCommands)
    by (apply (bool_decide_unpack _); vm_compute; exact I).
  assert (Hh : "wacth" ∉ helpFlags)
    by (apply (bool_decide_unpack _); vm_compute; exact I).
  split; [exact Hw|]. split; [exact Hh|].
  exact (@unknown_command_reported (DemoCli.externals true)
           "node" "love-ts" "wacth" ["game"] Hw Hh).
Defined.

(** X15. Without a command the tool starts the project of the current
    directory when that has a [tsconfig.json]; when it has none, the
    clause has no [break] and three lines come out: the missing file, then
    [Unknown command "undefined".], then the help text. *)
Theorem no_command `{CliExternals} argv :
  argv !! 2 = None →
  main argv
  = if existsSync "tsconfig.json"
    then [ TranspileAndExecute (getFullConfigFilePath ".") ]
    else [ ConsoleError "Could not find tsconfig.json in current directory.";
           ConsoleError ("Unknown command " +:+ dq +:+ "undefined" +:+ dq +:+ ".");
           ConsoleLog help ].
Proof.
  intros Hnone. rewrite main_eq, Hnone, run_from. reflexivity.
Qed.

Lemma no_command_witness :
  ["node"; "love-ts"] !! 2 = None
  ∧ @main (DemoCli.externals false) ["node"; "love-ts"]
    = [ ConsoleError "Could not find tsconfig.json in current directory.";
        ConsoleError ("Unknown command " +:+ dq +:+ "undefined" +:+ dq +:+ ".");
        ConsoleLog help ].
Proof.
  assert (Hnone : ["node"; "love-ts"] !! 2 = @None string) by reflexivity.
  split; [exact Hnone|].
  exact (@no_command (DemoCli.externals false) ["node"; "love-ts"] Hnone).
Defined.

(** X16. [release], [start] and [watch] look at their first option only,
    and take [.] when there is none: further options change nothing, and
    neither do the first two entries of [process.argv]. *)
Theorem path_commands_use_first_option `{CliExternals}
    node script node' script' c path more :
  c ∈ ["release"; "start"; "watch"] →
  main (node :: script :: c :: path :: more) = main [node'; script'; c; path]
  ∧ main [node; script; c] = main [node'; script'; c; "."].
Proof.
  intros Hc. rewrite !main_eq.
  repeat (apply elem_of_cons in Hc as [->|Hc]; [done|]).
  by inversion Hc.
Qed.

Lemma path_commands_use_first_option_witness :
  ("watch" ∈ ["release"; "start"; "watch"])
  ∧ @main (DemoCli.externals true) ["node"; "love-ts"; "watch"]
    = [ TranspileExecuteAndWatch "/home/dev/game/./tsconfig.json" ].
Proof.
  assert (Hc : "watch" ∈ ["release"; "start"; "watch"])
    by (do 2 apply list_elem_of_further; apply list_elem_of_here).
  split; [exact Hc|].
  rewrite (proj2 (@path_commands_use_first_option (DemoCli.externals true)
                    "node" "love-ts" "node" "love-ts" "watch" "." [] Hc)).
  vm_compute. reflexivity.
Defined.

(** X17. [build], [init], [install] and [test] take no options: whatever
    follows the command, the same one thing happens ([build] does not look
    at a directory given to it). *)
Theorem plain_commands_ignore_options `{CliExternals} node script c options :
  c ∈ ["build"; "init"; "install"; "test"] →
  main (node :: script :: c :: options) = main [node; script; c]
  ∧ List.length (main (node :: script :: c :: options)) = 1.
Proof.
  intros Hc. rewrite !main_eq.
  repeat (apply elem_of_cons in Hc as [->|Hc]; [done|]).
  by inversion Hc.
Qed.

Lemma plain_commands_ignore_options_witness :
  ("build" ∈ ["build"; "init"; "install"; "test"])
  ∧ @main (DemoCli.externals true) ["node"; "love-ts"; "build"; "games/pong"]
    = [ CliExec "yarn build" ].
Proof.
  assert (Hc : "build" ∈ ["build"; "init"; "install"; "test"])
    by apply list_elem_of_here.
  split; [exact Hc|].
  rewrite (proj1 (@plain_commands_ignore_options (DemoCli.externals true)
                    "node" "love-ts" "build" ["games/pong"] Hc)).
  vm_compute. reflexivity.
Defined.

(** X18. What [add] prints when its child is done: after a close without
    error, three lines for each option that does not start with [-], in
    the order of the options, and nothing for the flags; once the child
    has reported an error, only errors are printed, whatever follows. *)
Theorem add_reports_packages options :
  List.length (addListeners false options [ChildClose])
  = 3 * List.length (List.filter notFlag options)
  ∧ List.filter isConsoleLog (addListeners false options [ChildClose])
    = addListeners false options [ChildClose]
  ∧ (∀ option, option ∈ options → notFlag option = true →
       ConsoleLog ("Added package " +:+ dq +:+ option +:+ dq +:+ ".")
         ∈ addListeners false options [ChildClose])
  ∧ (∀ err events,
       List.filter isConsoleLog
         (addListeners false options (ChildError err :: events)) = []).
Proof.
  split_and!.
  - simpl. rewrite app_nil_r. apply addOnClose_length.
  - simpl. rewrite app_nil_r. unfold addOnClose. simpl negb. cbv iota.
    induction options as [|o rest IH]; [done|]. simpl flat_map.
    rewrite List.filter_app, IH. by destruct (notFlag o).
  - intros o Ho Hflag. simpl. rewrite app_nil_r.
    unfold addOnClose. simpl negb. cbv iota.
    apply list_elem_of_In, in_flat_map. exists o.
    split; [by apply list_elem_of_In|]. rewrite Hflag. by left.
  - intros err events. simpl. apply addListeners_after_error.
Qed.


